(** * LLM-List JS SDK: the registry accessor, embedded and verified

    The repository ships two editions of the [LLMRegistry] class:

    - [src/index.js]          -- module [Unguarded]: the accessors dereference
                                 [this.registry] directly;
    - [src/unnamed/part_000]  -- module [Guarded]: every accessor first tests
                                 [this.registry], and [fetch] checks the HTTP
                                 status.

    Both are embedded below over one model of JavaScript values, a state and
    exception monad for method bodies, and a small model of the HTTP
    transport.  Theorems follow the definitions. *)

From Stdlib Require Import List String Ascii ZArith Bool Lia DecimalString.
Import ListNotations.
Local Open Scope string_scope.

(* ================================================================== *)
(** ** JavaScript values *)

(** The values [JSON.parse] can produce, plus [undefined].  Numbers carry an
    integer: the code never computes with them, it only tests truthiness.
    An object is the list of its own properties. *)
#[local] Unset Elimination Schemes.
Inductive value : Type :=
| VUndefined
| VNull
| VBool (b : bool)
| VNum (n : Z)
| VStr (s : string)
| VArr (elems : list value)
| VObj (props : list (string * value)).
#[local] Set Elimination Schemes.

(** ToBoolean. *)
Definition truthy (v : value) : bool :=
  match v with
  | VUndefined | VNull => false
  | VBool b => b
  | VNum n => negb (Z.eqb n 0)
  | VStr s => negb (String.eqb s "")
  | VArr _ | VObj _ => true
  end.

Fixpoint assoc (k : string) (props : list (string * value)) : option value :=
  match props with
  | [] => None
  | (k', v) :: rest => if String.eqb k k' then Some v else assoc k rest
  end.

(** Thrown values.  Every error the code raises or meets is an [Error]
    object or one of its built-in subclasses, with a [message]. *)
Inductive error_class := ErrorC | TypeErrorC | SyntaxErrorC.

Record exn := Exn { class_of : error_class; message : string }.

Definition Error (msg : string) : exn := Exn ErrorC msg.

Inductive completion (A : Type) : Type :=
| Normal (a : A)
| Throw (e : exn).
Arguments Normal {A} a.
Arguments Throw {A} e.

(** Rendering used by V8 in its messages. *)
Definition type_name (v : value) : string :=
  match v with VNull => "null" | _ => "undefined" end.

(** [v.k] for the property names the SDK reads ([providers], [id], [models],
    [website], [api_config], [auth]); none of them is inherited from a
    built-in prototype, so on a primitive or an array the read gives
    [undefined].  Reading a property of [undefined] or [null] throws a
    TypeError (the message text is the engine's; only the class matters). *)
Definition get_prop (v : value) (k : string) : completion value :=
  match v with
  | VUndefined | VNull =>
      Throw (Exn TypeErrorC
               ("Cannot read properties of " ++ type_name v
                  ++ " (reading '" ++ k ++ "')"))
  | VObj props =>
      Normal (match assoc k props with Some x => x | None => VUndefined end)
  | _ => Normal VUndefined
  end.

(** [v === s] where [s] is a string: true exactly for the same string. *)
Definition strict_eq_string (v : value) (s : string) : bool :=
  match v with
  | VStr t => String.eqb t s
  | _ => false
  end.

(** Template-literal rendering of an integer JS number. *)
Definition show_number (n : Z) : string :=
  NilEmpty.string_of_int (Z.to_int n).

(* ================================================================== *)
(** ** Program state and the method monad *)

(** An [LLMRegistry] object is a reference into [instances], which holds the
    [registry] field of every object built so far, in allocation order. *)
Definition ref := nat.

Record heap := Heap {
  localRegistry : value;       (* the module-level [let localRegistry] *)
  instances : list value;      (* [this.registry] of each LLMRegistry *)
  console : list string        (* lines written by [console.warn] *)
}.

Definition M (A : Type) : Type := heap -> completion A * heap.

Definition ret {A} (a : A) : M A := fun h => (Normal a, h).

Definition throw {A} (e : exn) : M A := fun h => (Throw e, h).

Definition bind {A B} (m : M A) (k : A -> M B) : M B :=
  fun h =>
    match m h with
    | (Normal a, h') => k a h'
    | (Throw e, h') => (Throw e, h')
    end.

Notation "x <- m ;; k" := (bind m (fun x => k))
  (at level 61, m at next level, right associativity).
Notation "m ;;; k" := (bind m (fun _ => k))
  (at level 61, right associativity).

(** [try { body } catch (error) { handler }]. *)
Definition try_catch {A} (body : M A) (handler : exn -> M A) : M A :=
  fun h =>
    match body h with
    | (Normal a, h') => (Normal a, h')
    | (Throw e, h') => handler e h'
    end.

Definition lift {A} (c : completion A) : M A := fun h => (c, h).

(** [v.k] inside a method. *)
Definition prop (v : value) (k : string) : M value := lift (get_prop v k).

(** [this.registry]. *)
Definition this_registry (this : ref) : M value :=
  fun h => (Normal (nth this (instances h) VUndefined), h).

(** The module variable [localRegistry]. *)
Definition read_localRegistry : M value :=
  fun h => (Normal (localRegistry h), h).

(** [new]: a fresh object whose [registry] field is not yet assigned. *)
Definition alloc : M ref :=
  fun h => (Normal (List.length (instances h)),
            Heap (localRegistry h) (instances h ++ [VUndefined])%list (console h)).

Fixpoint set_nth (i : nat) (v : value) (l : list value) : list value :=
  match l, i with
  | [], _ => []
  | _ :: rest, O => v :: rest
  | x :: rest, S j => x :: set_nth j v rest
  end.

(** [this.registry = v]. *)
Definition set_registry (this : ref) (v : value) : M unit :=
  fun h => (Normal tt,
            Heap (localRegistry h) (set_nth this v (instances h)) (console h)).

Definition console_warn (line : string) : M unit :=
  fun h => (Normal tt,
            Heap (localRegistry h) (instances h) (console h ++ [line])%list).

(** [Array.prototype.find]: elements are visited from index 0; the first
    one on which the callback answers a truthy value is returned, and
    [undefined] when there is none.  An exception of the callback
    propagates. *)
Fixpoint find (cb : value -> M value) (elems : list value) : M value :=
  match elems with
  | [] => ret VUndefined
  | p :: rest =>
      r <- cb p ;;
      if truthy r then ret p else find cb rest
  end.

(** [arr.find(cb)]: on anything but an array, [find] is missing (or the
    receiver is [undefined]/[null]) and the call throws a TypeError. *)
Definition array_find (arr : value) (cb : value -> M value) : M value :=
  match arr with
  | VArr elems => find cb elems
  | VUndefined | VNull =>
      throw (Exn TypeErrorC
               ("Cannot read properties of " ++ type_name arr
                  ++ " (reading 'find')"))
  | _ => throw (Exn TypeErrorC "find is not a function")
  end.

(** The arrow function [p => p.id === providerId]. *)
Definition id_matches (providerId : string) (p : value) : M value :=
  i <- prop p "id" ;;
  ret (VBool (strict_eq_string i providerId)).

(** [new Error(`Provider with ID '${providerId}' not found.`)] *)
Definition ProviderNotFoundError (providerId : string) : exn :=
  Error ("Provider with ID '" ++ providerId ++ "' not found.").

Definition no_registry_warning : string :=
  "Warning: No local registry found. Please use LLMRegistry.fetch() or provide data in constructor.".

(* ================================================================== *)
(** ** The platform: JSON parser and HTTP transport *)

Inductive parse_result : Type :=
| Parsed (json : value)
| ParseFailure (msg : string).     (* message of the SyntaxError *)

(** What one GET delivers.  The chunks are the bytes of the body as the
    ['data'] events hand them over, in order.
    - [ConnectionError]: no response; the request emits ['error'] (native
      [fetch] rejects) with this message.
    - [HttpResponse]: status line, body, end of body.
    - [HttpAborted]: status line and part of the body, then the connection
      is lost: the response emits ['aborted'] and never ['end'], and the
      request emits no ['error']; native [fetch], which has resolved by then,
      rejects the body read with a TypeError of this message.
    - [RequestRefused]: the call itself throws a TypeError of this message,
      before anything is sent (a malformed URL, a protocol other than
      [https:] for [https.get]). *)
Inductive http_result : Type :=
| ConnectionError (msg : string)
| HttpResponse (statusCode : Z) (chunks : list string)
| HttpAborted (statusCode : Z) (chunks : list string) (msg : string)
| RequestRefused (msg : string).

Record platform := Platform {
  JSON_parse : string -> parse_result;     (* the built-in [JSON.parse] *)
  utf8_decode : string -> string;          (* [Buffer.prototype.toString]:
                                              bytes to text, ill-formed
                                              sequences replaced by U+FFFD *)
  stream_decode : list string -> string;   (* the text that the ['data']
                                              events deliver, all in all,
                                              after [setEncoding('utf8')] *)
  body_decode : string -> string;          (* the text that [response.json()]
                                              parses: the body decoded, a
                                              leading byte-order mark
                                              dropped *)
  http_get : string -> http_result;        (* the network, per URL *)
  has_fetch : bool;                        (* [typeof fetch === 'function'] *)
  has_require : bool                       (* [typeof require !== 'undefined'] *)
}.

(** The bytes of the body: the chunks one after the other. *)
Definition collect (chunks : list string) : string :=
  fold_left String.append chunks "".

(** [let data = ''; res.on('data', chunk => { data += chunk })] where no
    encoding was set on the response: every chunk is a Buffer and is turned
    into text on its own when it is appended. *)
Definition https_text (P : platform) (chunks : list string) : string :=
  fold_left (fun data chunk => data ++ utf8_decode P chunk) chunks "".

(** The body decoded as a whole: [response.json()] of native [fetch]. *)
Definition whole_text (P : platform) (chunks : list string) : string :=
  body_decode P (collect chunks).

(** [res.setEncoding('utf8'); res.on('data', chunk => { data += chunk })]:
    the chunks arrive as text, a character that is split between two of
    them held back until it is complete. *)
Definition stream_text (P : platform) (chunks : list string) : string :=
  stream_decode P chunks.

(** [response.ok]. *)
Definition response_ok (status : Z) : bool :=
  (200 <=? status)%Z && (status <=? 299)%Z.

Definition default_url : string :=
  "https://raw.githubusercontent.com/lone-yu-cmd/LLM-List/main/llm_registry.json".

(** A default parameter: [undefined] selects the default value. *)
Definition url_or_default (url : option string) : string :=
  match url with Some u => u | None => default_url end.

(** How a promise returned by [fetch] settles, if it does: [Pending] is the
    promise that nothing resolves or rejects any more. *)
Inductive settled : Type :=
| Resolved (sdk : ref)
| Rejected (e : exn)
| Pending.

(** An [async] function body, or a promise executor whose callbacks have
    run: a normal completion resolves, a throw rejects. *)
Definition settle (body : M ref) : M settled :=
  fun h =>
    match body h with
    | (Normal r, h') => (Normal (Resolved r), h')
    | (Throw e, h') => (Normal (Rejected e), h')
    end.

(* ================================================================== *)
(** ** [src/index.js] *)

Module Unguarded.

(** [constructor(data) { this.registry = data || localRegistry;
                         if (!this.registry) console.warn(...) }] *)
Definition constructor (data : value) : M ref :=
  this <- alloc ;;
  l <- read_localRegistry ;;
  set_registry this (if truthy data then data else l) ;;;
  r <- this_registry this ;;
  (if negb (truthy r) then console_warn no_registry_warning else ret tt) ;;;
  ret this.

(** [static async fetch(url = ...)]: [https.get], the body collected from
    the ['data'] events, parsed at ['end']; the ['error'] event of the
    request rejects.  The status code is not looked at.  A response that is
    cut short has no listener: the promise stays pending.  A throw of
    [https.get] inside the executor rejects with what was thrown. *)
Definition fetch (P : platform) (url : option string) : M settled :=
  match http_get P (url_or_default url) with
  | HttpResponse _ chunks =>
      let data := https_text P chunks in
      settle
        (match JSON_parse P data with
         | Parsed json => constructor json
         | ParseFailure msg =>
             throw (Error ("Failed to parse registry JSON: " ++ msg))
         end)
  | HttpAborted _ _ _ => ret Pending
  | ConnectionError msg =>
      settle (throw (Error ("Failed to fetch registry: " ++ msg)))
  | RequestRefused msg => settle (throw (Exn TypeErrorC msg))
  end.

(** [return this.registry.providers;] *)
Definition getProviders (this : ref) : M value :=
  r <- this_registry this ;;
  prop r "providers".

Definition getProviderModels (this : ref) (providerId : string) : M value :=
  r <- this_registry this ;;
  ps <- prop r "providers" ;;
  provider <- array_find ps (id_matches providerId) ;;
  if negb (truthy provider) then throw (ProviderNotFoundError providerId)
  else
    m <- prop provider "models" ;;
    if truthy m then ret m else ret (VArr []).

Definition getProviderWebsite (this : ref) (providerId : string) : M value :=
  r <- this_registry this ;;
  ps <- prop r "providers" ;;
  provider <- array_find ps (id_matches providerId) ;;
  if negb (truthy provider) then throw (ProviderNotFoundError providerId)
  else prop provider "website".

Definition getProviderAuth (this : ref) (providerId : string) : M value :=
  r <- this_registry this ;;
  ps <- prop r "providers" ;;
  provider <- array_find ps (id_matches providerId) ;;
  if negb (truthy provider) then throw (ProviderNotFoundError providerId)
  else
    cfg <- prop provider "api_config" ;;
    a <- (if truthy cfg then prop cfg "auth" else ret cfg) ;;
    if truthy a then (cfg' <- prop provider "api_config" ;; prop cfg' "auth")
    else ret VNull.

(** [module.exports = new LLMRegistry();] *)
Definition default_export : M ref := constructor VUndefined.

End Unguarded.

(* ================================================================== *)
(** ** [src/unnamed/part_000] *)

Module Guarded.

Definition constructor (data : value) : M ref :=
  this <- alloc ;;
  l <- read_localRegistry ;;
  set_registry this (if truthy data then data else l) ;;;
  r <- this_registry this ;;
  (if negb (truthy r) then console_warn no_registry_warning else ret tt) ;;;
  ret this.

(** The native [fetch] branch:
    [try { response = await fetch(url); if (!response.ok) throw ...;
           json = await response.json(); return new LLMRegistry(json); }
     catch (error) { throw new Error(`Failed to fetch registry: ...`) }] *)
Definition fetch_native (P : platform) (url : string) : M ref :=
  try_catch
    (match http_get P url with
     | ConnectionError msg => throw (Exn TypeErrorC msg)
     | RequestRefused msg => throw (Exn TypeErrorC msg)
     | HttpResponse status chunks =>
         if negb (response_ok status) then
           throw (Error ("HTTP error! status: " ++ show_number status))
         else
           match JSON_parse P (whole_text P chunks) with
           | Parsed json => constructor json
           | ParseFailure msg => throw (Exn SyntaxErrorC msg)
           end
     | HttpAborted status _ msg =>
         if negb (response_ok status) then
           throw (Error ("HTTP error! status: " ++ show_number status))
         else throw (Exn TypeErrorC msg)
     end)
    (fun error =>
       throw (Error ("Failed to fetch registry: " ++ message error))).

(** The [https] branch, [return new Promise(...)]: as in [src/index.js],
    behind [if (res.statusCode !== 200) return reject(...)], which runs as
    soon as the status line is in. *)
Definition fetch_https (P : platform) (url : string) : M settled :=
  match http_get P url with
  | HttpResponse statusCode chunks =>
      settle
        (if negb (Z.eqb statusCode 200) then
           throw (Error ("HTTP error! status: " ++ show_number statusCode))
         else
           let data := https_text P chunks in
           match JSON_parse P data with
           | Parsed json => constructor json
           | ParseFailure msg =>
               throw (Error ("Failed to parse registry JSON: " ++ msg))
           end)
  | HttpAborted statusCode _ _ =>
      if negb (Z.eqb statusCode 200) then
        settle
          (throw (Error ("HTTP error! status: " ++ show_number statusCode)))
      else ret Pending
  | ConnectionError msg =>
      settle (throw (Error ("Failed to fetch registry: " ++ msg)))
  | RequestRefused msg => settle (throw (Exn TypeErrorC msg))
  end.

Definition fetch (P : platform) (url : option string) : M settled :=
  let url := url_or_default url in
  if has_fetch P then settle (fetch_native P url)
  else if has_require P then fetch_https P url
  else settle (throw (Error "Environment not supported: global fetch and https module are both unavailable.")).

(** [return this.registry && this.registry.providers
            ? this.registry.providers : [];] *)
Definition getProviders (this : ref) : M value :=
  r <- this_registry this ;;
  c <- (if truthy r then prop r "providers" else ret r) ;;
  if truthy c then (r' <- this_registry this ;; prop r' "providers")
  else ret (VArr []).

Definition getProviderModels (this : ref) (providerId : string) : M value :=
  g <- this_registry this ;;
  if negb (truthy g) then ret (VArr []) else
  r <- this_registry this ;;
  ps <- prop r "providers" ;;
  provider <- array_find ps (id_matches providerId) ;;
  if negb (truthy provider) then throw (ProviderNotFoundError providerId)
  else
    m <- prop provider "models" ;;
    if truthy m then ret m else ret (VArr []).

Definition getProviderWebsite (this : ref) (providerId : string) : M value :=
  g <- this_registry this ;;
  if negb (truthy g) then ret VNull else
  r <- this_registry this ;;
  ps <- prop r "providers" ;;
  provider <- array_find ps (id_matches providerId) ;;
  if negb (truthy provider) then throw (ProviderNotFoundError providerId)
  else prop provider "website".

Definition getProviderAuth (this : ref) (providerId : string) : M value :=
  g <- this_registry this ;;
  if negb (truthy g) then ret VNull else
  r <- this_registry this ;;
  ps <- prop r "providers" ;;
  provider <- array_find ps (id_matches providerId) ;;
  if negb (truthy provider) then throw (ProviderNotFoundError providerId)
  else
    cfg <- prop provider "api_config" ;;
    a <- (if truthy cfg then prop cfg "auth" else ret cfg) ;;
    if truthy a then (cfg' <- prop provider "api_config" ;; prop cfg' "auth")
    else ret VNull.

Definition default_export : M ref := constructor VUndefined.

End Guarded.

(* ================================================================== *)
(** ** The data model of the specification *)

(** An own property of an object, when there is one. *)
Definition field (k : string) (v : value) : option value :=
  match v with
  | VObj props => assoc k props
  | _ => None
  end.

(** The [id] of a provider entry, when it is a string. *)
Definition provider_id (p : value) : option string :=
  match field "id" p with
  | Some (VStr s) => Some s
  | _ => None
  end.

(** Provider: an object with a string [id]; [website], [models] and
    [api_config] (with its [auth]) are optional and, when present, a string,
    a sequence and an object holding an object. *)
Definition is_Provider (p : value) : bool :=
  match p with
  | VObj props =>
      match assoc "id" props with Some (VStr _) => true | _ => false end
      && match assoc "website" props with
         | None | Some (VStr _) => true | _ => false end
      && match assoc "models" props with
         | None | Some (VArr _) => true | _ => false end
      && match assoc "api_config" props with
         | None => true
         | Some (VObj cfg) =>
             match assoc "auth" cfg with
             | None | Some (VObj _) => true | _ => false end
         | _ => false
         end
  | _ => false
  end.

(** RegistryDocument: an object whose [providers] is a sequence of
    Providers. *)
Definition is_RegistryDocument (doc : value) : bool :=
  match field "providers" doc with
  | Some (VArr ps) => forallb is_Provider ps
  | _ => false
  end.

Definition providers_of (doc : value) : list value :=
  match field "providers" doc with
  | Some (VArr ps) => ps
  | _ => []
  end.

(** What the specification reads off a provider entry: its models (an
    absent field counts as the empty sequence), its website and its auth
    configuration (absent: [undefined], respectively [null]). *)
Definition models_of (p : value) : value :=
  match field "models" p with
  | Some m => m
  | None => VArr []
  end.

Definition website_of (p : value) : value :=
  match field "website" p with
  | Some w => w
  | None => VUndefined
  end.

Definition auth_of (p : value) : value :=
  match field "api_config" p with
  | Some cfg =>
      match field "auth" cfg with
      | Some a => a
      | None => VNull
      end
  | None => VNull
  end.

(** The lookup as the specification words it: a linear scan over the
    provider sequence comparing [id] by exact string equality, the first
    match winning. *)
Fixpoint lookup_spec (providerId : string) (ps : list value) : option value :=
  match ps with
  | [] => None
  | p :: rest =>
      match provider_id p with
      | Some s =>
          if String.eqb s providerId then Some p
          else lookup_spec providerId rest
      | None => lookup_spec providerId rest
      end
  end.

(** The handle [this] of heap [h] holds document [doc]. *)
Definition loaded (h : heap) (this : ref) (doc : value) : Prop :=
  nth_error (instances h) this = Some doc.

(** Accessor calls, and a caller that issues a sequence of them on one
    handle, catching whatever each call throws. *)
Inductive call : Type :=
| CallGetProviders
| CallGetProviderModels (providerId : string)
| CallGetProviderWebsite (providerId : string)
| CallGetProviderAuth (providerId : string).

Record accessors := Accessors {
  acc_getProviders : ref -> M value;
  acc_getProviderModels : ref -> string -> M value;
  acc_getProviderWebsite : ref -> string -> M value;
  acc_getProviderAuth : ref -> string -> M value
}.

Definition unguarded : accessors :=
  Accessors Unguarded.getProviders Unguarded.getProviderModels
            Unguarded.getProviderWebsite Unguarded.getProviderAuth.

Definition guarded : accessors :=
  Accessors Guarded.getProviders Guarded.getProviderModels
            Guarded.getProviderWebsite Guarded.getProviderAuth.

Definition invoke (A : accessors) (this : ref) (c : call) : M value :=
  match c with
  | CallGetProviders => acc_getProviders A this
  | CallGetProviderModels i => acc_getProviderModels A this i
  | CallGetProviderWebsite i => acc_getProviderWebsite A this i
  | CallGetProviderAuth i => acc_getProviderAuth A this i
  end.

Fixpoint run_calls (A : accessors) (this : ref) (cs : list call) (h : heap)
  : list (completion value) * heap :=
  match cs with
  | [] => ([], h)
  | c :: rest =>
      let (r, h') := invoke A this c h in
      let (rs, h'') := run_calls A this rest h' in
      (r :: rs, h'')
  end.

(* ================================================================== *)
(** ** Sample data *)

Definition gpt4 : value := VObj [("id", VStr "gpt-4"); ("name", VStr "GPT-4")].

Definition openai : value :=
  VObj [("id", VStr "openai"); ("website", VStr "https://openai.com");
        ("models", VArr [gpt4])].

Definition bearer : list (string * value) := [("type", VStr "bearer")].

Definition acme : value :=
  VObj [("id", VStr "acme"); ("api_config", VObj [("auth", VObj bearer)])].

Definition bare : value :=
  VObj [("id", VStr "bare"); ("api_config", VObj [])].

(** A second entry under the id of [openai]. *)
Definition openai_again : value :=
  VObj [("id", VStr "openai"); ("website", VStr "https://example.org")].

Definition sample_document : value :=
  VObj [("providers", VArr [openai; acme; bare])].

Definition duplicated_document : value :=
  VObj [("providers", VArr [acme; openai; openai_again])].

(** One handle on [sample_document], one on [duplicated_document] and one
    without a document; no local registry. *)
Definition sample_heap : heap :=
  Heap VNull [sample_document; duplicated_document; VNull] [].

(** A heap in which nothing has been constructed and no local registry
    was found. *)
Definition empty_heap : heap := Heap VNull [] [].

(** A parser table for the response bodies used in the examples; on
    [{}], [[]] and [null] and on the two texts that are not JSON it answers
    as [JSON.parse] does. *)
Definition sample_parse (s : string) : parse_result :=
  if String.eqb s "{}" then Parsed (VObj [])
  else if String.eqb s "[]" then Parsed (VArr [])
  else if String.eqb s "null" then Parsed VNull
  else ParseFailure "Unexpected token".

(** A server that answers every URL with one status and body, the body
    arriving in two chunks. *)
Definition server (status : Z) (part1 part2 : string) (url : string)
  : http_result :=
  HttpResponse status [part1; part2].

(** U+FFFD in UTF-8. *)
Definition replacement_character : string :=
  String (Ascii.ascii_of_nat 239)
    (String (Ascii.ascii_of_nat 191) (String (Ascii.ascii_of_nat 189) "")).

(** A decoder for the examples: right on texts of one- and two-byte
    characters, where every byte that is not part of one becomes U+FFFD
    (characters of three and four bytes are beyond it). *)
Fixpoint sample_decode (bytes : string) : string :=
  match bytes with
  | EmptyString => EmptyString
  | String a rest =>
      let n := Ascii.nat_of_ascii a in
      if Nat.ltb n 128 then String a (sample_decode rest)
      else if Nat.leb 194 n && Nat.leb n 223 then
        match rest with
        | String b rest' =>
            let k := Ascii.nat_of_ascii b in
            if Nat.leb 128 k && Nat.leb k 191
            then String a (String b (sample_decode rest'))
            else replacement_character ++ sample_decode rest
        | EmptyString => replacement_character
        end
      else replacement_character ++ sample_decode rest
  end.

Definition sample_stream_decode (chunks : list string) : string :=
  sample_decode (fold_left String.append chunks "").

(** Node before 18: no global [fetch], [require] present. *)
Definition node_https (net : string -> http_result) : platform :=
  Platform sample_parse sample_decode sample_stream_decode sample_decode
           net false true.

(** A browser, or Node 18 and later. *)
Definition with_native_fetch (net : string -> http_result) : platform :=
  Platform sample_parse sample_decode sample_stream_decode sample_decode
           net true true.

(** The two bytes of U+00E9, for a character that arrives split between
    two chunks. *)
Definition e_acute_byte1 : string := String (Ascii.ascii_of_nat 195) "".

Definition e_acute_byte2 : string := String (Ascii.ascii_of_nat 169) "".

(* ================================================================== *)
(** ** Failure kinds of [fetch] *)

(** The code raises plain [Error] objects; what tells the failures apart is
    the message each site builds. *)
Definition is_ParseError (e : exn) : bool :=
  String.prefix "Failed to parse registry JSON: " (message e).

Definition is_HttpStatusError (e : exn) : bool :=
  String.prefix "HTTP error! status: " (message e)
  || String.prefix "Failed to fetch registry: HTTP error! status: " (message e).

(** [fetch] rejects with a ParseError and leaves the program state as it
    was. *)
Definition rejects_with_ParseError
    (fetch : platform -> option string -> M settled)
    (P : platform) (url : option string) (h : heap) : Prop :=
  exists e, fetch P url h = (Normal (Rejected e), h) /\ is_ParseError e = true.

(** The text that [fetch] of [src/unnamed/part_000] parses: the body
    decoded as a whole over native [fetch], chunk by chunk over [https]. *)
Definition guarded_text (P : platform) (chunks : list string) : string :=
  if has_fetch P then whole_text P chunks else https_text P chunks.

(** [fetch] resolves with a fresh handle on [doc]: nothing is written to
    the console, the local registry and the handles there were are as
    before, and [getProviders] on the new handle returns the providers of
    [doc]. *)
Definition resolves_with_document
    (fetch : platform -> option string -> M settled)
    (getProviders : ref -> M value)
    (P : platform) (url : option string) (h : heap) (doc : value) : Prop :=
  exists h',
    fetch P url h = (Normal (Resolved (List.length (instances h))), h') /\
    console h' = console h /\
    localRegistry h' = localRegistry h /\
    (forall other d, loaded h other d -> loaded h' other d) /\
    getProviders (List.length (instances h)) h'
      = (Normal (VArr (providers_of doc)), h').

(** A computation that leaves the program state as it found it. *)
Definition preserves {A} (m : M A) : Prop := forall h, snd (m h) = h.

(* ================================================================== *)
(** ** Shapes of values *)

(** [undefined] and [null]: the values whose properties cannot be read. *)
Definition nullish (v : value) : bool :=
  match v with
  | VUndefined | VNull => true
  | _ => false
  end.

Definition is_array (v : value) : bool :=
  match v with
  | VArr _ => true
  | _ => false
  end.

Definition is_TypeError (e : exn) : bool :=
  match class_of e with
  | TypeErrorC => true
  | _ => false
  end.

(** A computation whose completion depends on nothing in the program state
    but the [registry] of the handle [this]. *)
Definition reads_only (this : ref) {A} (m : M A) : Prop :=
  forall h1 h2,
    nth this (instances h1) VUndefined = nth this (instances h2) VUndefined ->
    fst (m h1) = fst (m h2).

(** The text [{"providers":[]}], in two chunks, and a parser table that
    knows it. *)
Definition dquote : string := String (Ascii.ascii_of_nat 34) "".

Definition empty_registry_part1 : string := "{" ++ dquote ++ "provid".

Definition empty_registry_part2 : string := "ers" ++ dquote ++ ":[]}".

Definition empty_registry : value := VObj [("providers", VArr [])].

Definition registry_parse (s : string) : parse_result :=
  if String.eqb s (empty_registry_part1 ++ empty_registry_part2)
  then Parsed empty_registry
  else sample_parse s.

(* ================================================================== *)
(** ** The machine: files, consoles, process *)

(** A file: its text, its mode as [fs.statSync] reports it -- the file-type
    bits together with the permission bits, 33188 (octal 100644) for an
    ordinary file that its owner may write -- and the message of the error
    that reading it raises when it cannot be read. *)
Record file := File {
  content : string;
  mode : Z;
  read_error : option string
}.

(** What module initialisation and the sync script see and change.  The
    local file is [llm_registry.json] beside [index.js] (for the script in
    [scripts/], one directory up: the same file); the root file is
    [../../llm_registry.json]. *)
Record machine := Machine {
  root_file : option file;
  local_file : option file;
  local_path : string;            (* the resolved path of the local file *)
  write_error : option string;    (* a write of the local file is refused with this *)
  chmod_error : option string;    (* raised by [chmodSync], if any *)
  created_mode : Z;               (* [stats.mode] of a file that a write creates *)
  node_env : option string;       (* [process.env.NODE_ENV] *)
  is_node : bool;                 (* [process.versions.node] is there *)
  fs_usable : bool;               (* [require('fs')] gives the real module *)
  stdout : list string;           (* [console.log] *)
  stderr : list string;           (* [console.warn] *)
  exit_code : option Z            (* set by [process.exit] *)
}.

Definition IO (A : Type) : Type := machine -> completion A * machine.

Definition io_ret {A} (a : A) : IO A := fun s => (Normal a, s).

Definition io_throw {A} (e : exn) : IO A := fun s => (Throw e, s).

Definition io_bind {A B} (m : IO A) (k : A -> IO B) : IO B :=
  fun s =>
    match m s with
    | (Normal a, s') => k a s'
    | (Throw e, s') => (Throw e, s')
    end.

Notation "x <~ m ;; k" := (io_bind m (fun x => k))
  (at level 61, m at next level, right associativity).
Notation "m ~;; k" := (io_bind m (fun _ => k))
  (at level 61, right associativity).

Definition io_try {A} (body : IO A) (handler : exn -> IO A) : IO A :=
  fun s =>
    match body s with
    | (Normal a, s') => (Normal a, s')
    | (Throw e, s') => handler e s'
    end.

Inductive location := Root | Local.

Definition file_at (w : location) (s : machine) : option file :=
  match w with
  | Root => root_file s
  | Local => local_file s
  end.

Definition set_local_file (f : file) (s : machine) : machine :=
  Machine (root_file s) (Some f) (local_path s) (write_error s)
          (chmod_error s) (created_mode s) (node_env s) (is_node s)
          (fs_usable s) (stdout s) (stderr s) (exit_code s).

Definition existsSync (w : location) : IO bool :=
  fun s => (Normal (match file_at w s with Some _ => true | None => false end),
            s).

(** [fs.readFileSync(path)]: the text of the file, or the error of the
    file system. *)
Definition readFileSync (w : location) : IO string :=
  fun s =>
    match file_at w s with
    | None => (Throw (Exn ErrorC "ENOENT: no such file or directory"), s)
    | Some f =>
        match read_error f with
        | Some msg => (Throw (Exn ErrorC msg), s)
        | None => (Normal (content f), s)
        end
    end.

(** [fs.writeFileSync(localPath, data)]: replaces the text of the local
    file, keeping its permissions, or creates the file.  A write that fails
    is one that is refused when the file is opened: the file stays as it
    was. *)
Definition writeFileSync (data : string) : IO unit :=
  fun s =>
    match write_error s with
    | Some msg => (Throw (Exn ErrorC msg), s)
    | None =>
        (Normal tt,
         set_local_file
           match local_file s with
           | Some f => File data (mode f) (read_error f)
           | None => File data (created_mode s) None
           end s)
    end.

(** The twelve permission bits of a mode. *)
Definition permission_mask : Z := 4095.

(** [fs.chmodSync(localPath, m)]: the permission bits of the file become
    those of [m]; its file-type bits stay. *)
Definition chmodSync (m : Z) : IO unit :=
  fun s =>
    match chmod_error s with
    | Some msg => (Throw (Exn ErrorC msg), s)
    | None =>
        match local_file s with
        | Some f =>
            (Normal tt,
             set_local_file
               (File (content f)
                     (Z.lor (Z.land (mode f) (Z.lnot permission_mask))
                            (Z.land m permission_mask))
                     (read_error f)) s)
        | None => (Throw (Exn ErrorC "ENOENT: no such file or directory"), s)
        end
    end.

Definition console_log (line : string) : IO unit :=
  fun s =>
    (Normal tt,
     Machine (root_file s) (local_file s) (local_path s) (write_error s)
             (chmod_error s) (created_mode s) (node_env s) (is_node s)
             (fs_usable s) (stdout s ++ [line])%list (stderr s) (exit_code s)).

Definition console_warn_line (line : string) : IO unit :=
  fun s =>
    (Normal tt,
     Machine (root_file s) (local_file s) (local_path s) (write_error s)
             (chmod_error s) (created_mode s) (node_env s) (is_node s)
             (fs_usable s) (stdout s) (stderr s ++ [line])%list (exit_code s)).

(** [process.exit(code)]: the process ends here; nothing that follows in
    the program runs. *)
Definition process_exit (code : Z) (s : machine) : machine :=
  Machine (root_file s) (local_file s) (local_path s) (write_error s)
          (chmod_error s) (created_mode s) (node_env s) (is_node s)
          (fs_usable s) (stdout s) (stderr s) (Some code).

(** [JSON.parse(text)] as a statement that may throw. *)
Definition json_parse (parse : string -> parse_result) (text : string)
  : IO value :=
  match parse text with
  | Parsed json => io_ret json
  | ParseFailure msg => io_throw (Exn SyntaxErrorC msg)
  end.

(** [process.env.NODE_ENV !== 'production']. *)
Definition not_production (s : machine) : bool :=
  match node_env s with
  | Some e => negb (String.eqb e "production")
  | None => true
  end.

(** [if (fs.existsSync(localRegistryPath)) {
       const fileContent = fs.readFileSync(localRegistryPath, 'utf-8');
       localRegistry = JSON.parse(fileContent); }]
    -- the statement all three editions share.  The result is the value of
    [localRegistry] after it: [null], its initial value, when the file is
    not there. *)
Definition load_local (parse : string -> parse_result) : IO value :=
  present <~ existsSync Local ;;
  if present then
    fileContent <~ readFileSync Local ;;
    json_parse parse fileContent
  else io_ret VNull.

(* ================================================================== *)
(** ** Module initialisation, [src/index.js] lines 5-39 *)

Module UnguardedInit.

(** The copy of the root file over the local one, when the root file is
    there; its failure is reported and otherwise ignored. *)
Definition sync_from_root : IO unit :=
  root_present <~ existsSync Root ;;
  if root_present then
    io_try
      (rootContent <~ readFileSync Root ;;
       writeFileSync rootContent ~;;
       fun s =>
         if not_production s then
           console_log ("[LLM-List SDK] Auto-synced registry from project root to: "
                          ++ local_path s) s
         else io_ret tt s)
      (fun syncError =>
         console_warn_line ("[LLM-List SDK] Failed to sync from root registry: "
                              ++ message syncError))
  else io_ret tt.

(** The whole [try { ... } catch (e) { warn; localRegistry = null }]; the
    result is the final value of [localRegistry]. *)
Definition initialise (parse : string -> parse_result) : IO value :=
  io_try
    (sync_from_root ~;; load_local parse)
    (fun e =>
       console_warn_line ("[LLM-List SDK] Failed to load local registry: "
                            ++ message e) ~;;
       io_ret VNull).

End UnguardedInit.

(* ================================================================== *)
(** ** Module initialisation, [src/unnamed/part_000] lines 1-24 *)

Module GuardedInit.

(** [const fs = require('fs')], which throws where there is no [fs]. *)
Definition require_fs : IO unit :=
  fun s =>
    if fs_usable s then (Normal tt, s)
    else (Throw (Exn ErrorC "Cannot find module 'fs'"), s).

Definition initialise (parse : string -> parse_result) : IO value :=
  fun s =>
    if is_node s then
      io_try (require_fs ~;; load_local parse) (fun _ => io_ret VNull) s
    else io_ret VNull s.

End GuardedInit.

(* ================================================================== *)
(** ** Module initialisation of the edition kept after the sync script,
       [src/scripts/sync_registry.js] lines 137-150; its class is that of
       [src/index.js] *)

Module PlainInit.

Definition initialise (parse : string -> parse_result) : IO value :=
  io_try
    (load_local parse)
    (fun e =>
       console_warn_line ("[LLM-List SDK] Failed to load local registry: "
                            ++ message e) ~;;
       io_ret VNull).

End PlainInit.

(** Loading a module: initialisation, then
    [module.exports = new LLMRegistry()] in a program state whose local
    registry is the one just computed and whose console holds the warnings
    written so far. *)
Definition load_module (initialise : IO value) (export : M ref) (s : machine)
  : completion ref * heap :=
  match initialise s with
  | (Normal registry, s') => export (Heap registry [] (stderr s'))
  | (Throw e, s') => (Throw e, Heap VNull [] (stderr s'))
  end.

(* ================================================================== *)
(** ** The sync script, [src/scripts/sync_registry.js] lines 1-132 *)

Module SyncScript.

Definition REMOTE_URL : string :=
  "https://raw.githubusercontent.com/lone-yu-cmd/LLM-List/main/llm_registry.json".

(** [log(type, message)].  The source puts the current time in front of
    every line; the time is not modelled and the line starts at the type. *)
Definition log (type message : string) : IO unit :=
  console_log ("[" ++ type ++ "] " ++ message).

(** What [await] gives back: the value of the promise, or nothing ever --
    the promise stays pending and the function that awaits it never
    resumes. *)
Inductive awaited (A : Type) : Type :=
| Fulfilled (a : A)
| Stalled.
Arguments Fulfilled {A} a.
Arguments Stalled {A}.

(** [fetchRemoteFile(url)], awaited: the text of a 200 response, as the
    ['data'] events deliver it ([res.setEncoding('utf8')]); a throw stands
    for the rejection.  The status is tested when the response starts; a 200
    response that is cut short has no listener and the promise stays
    pending. *)
Definition fetchRemoteFile (P : platform) (url : string)
  : IO (awaited string) :=
  log "INFO" ("开始下载文件: " ++ url) ~;;
  match http_get P url with
  | HttpResponse statusCode chunks =>
      if negb (Z.eqb statusCode 200) then
        io_throw (Error ("请求失败，状态码: " ++ show_number statusCode))
      else
        let data := stream_text P chunks in
        log "INFO" "文件下载完成" ~;;
        io_ret (Fulfilled data)
  | HttpAborted statusCode _ _ =>
      if negb (Z.eqb statusCode 200) then
        io_throw (Error ("请求失败，状态码: " ++ show_number statusCode))
      else io_ret Stalled
  | ConnectionError msg =>
      io_throw (Error ("网络请求错误: " ++ msg))
  | RequestRefused msg => io_throw (Exn TypeErrorC msg)
  end.

Definition isValidJSON (P : platform) (text : string) : bool :=
  match JSON_parse P text with
  | Parsed _ => true
  | ParseFailure _ => false
  end.

(** [getFileMode(filePath)]: [stats.mode], or [null]. *)
Definition getFileMode : IO (option Z) :=
  present <~ existsSync Local ;;
  if present then
    fun s => (Normal (match local_file s with
                      | Some f => Some (mode f)
                      | None => None
                      end), s)
  else io_ret None.

(** The steps of the [try] of [main] that follow the download. *)
Definition install (P : platform) (remoteContent : string) : IO unit :=
  (if negb (isValidJSON P remoteContent) then
     io_throw (Error "远程文件不是有效的 JSON 格式")
   else io_ret tt) ~;;
  log "SUCCESS" "JSON 格式验证通过" ~;;
  originalMode <~ getFileMode ;;
  writeFileSync remoteContent ~;;
  log "SUCCESS" "文件替换成功" ~;;
  (match originalMode with
   | Some m =>
       if negb (Z.eqb m 0) then
         chmodSync m ~;; log "INFO" "文件权限已恢复"
       else io_ret tt
   | None => io_ret tt
   end) ~;;
  writtenContent <~ readFileSync Local ;;
  if String.eqb writtenContent remoteContent then
    log "SUCCESS" "本地文件内容校验一致"
  else io_throw (Error "本地文件写入后校验失败").

(** The body of the [try] of [main]. *)
Definition main_try (P : platform) : IO (awaited unit) :=
  downloaded <~ fetchRemoteFile P REMOTE_URL ;;
  match downloaded with
  | Fulfilled remoteContent =>
      install P remoteContent ~;; io_ret (Fulfilled tt)
  | Stalled => io_ret Stalled
  end.

(** [main()]: [try], then either the [catch], which logs and ends the
    process with code 1 -- so the [finally] block does not run -- or the
    [finally] block.  When the download never settles nothing of [main]
    runs any more: the process ends on its own, with status 0 and without
    [process.exit].  [elapsed] is the duration as the last line prints
    it. *)
Definition main (P : platform) (elapsed : string) (s : machine) : machine :=
  let s1 := snd (log "INFO" "=== 开始同步 llm_registry.json ===" s) in
  match main_try P s1 with
  | (Normal (Fulfilled _), s2) =>
      snd (log "INFO" ("=== 同步结束，耗时 " ++ elapsed ++ "s ===") s2)
  | (Normal Stalled, s2) => s2
  | (Throw err, s2) =>
      process_exit 1 (snd (log "ERROR" ("同步失败: " ++ message err) s2))
  end.

End SyncScript.

(** A first install: Node, no files, nothing printed. *)
Definition fresh_machine : machine :=
  Machine None None "/app/llm_registry.json" None None 33188 None true true
          [] [] None.

(** The same with a local file holding [text]. *)
Definition machine_with_local (text : string) : machine :=
  set_local_file (File text 33188 None) fresh_machine.

(** The registry that the local file holds: its text parsed, when the file
    is there, can be read and is well-formed JSON; [null] otherwise. *)
Definition registry_on_disk (parse : string -> parse_result) (s : machine)
  : value :=
  match local_file s with
  | Some f =>
      match read_error f with
      | None =>
          match parse (content f) with
          | Parsed json => json
          | ParseFailure _ => VNull
          end
      | Some _ => VNull
      end
  | None => VNull
  end.

(** The local file is there but cannot be turned into a registry: reading
    it fails or its text is not JSON. *)
Definition local_file_broken (parse : string -> parse_result) (s : machine)
  : bool :=
  match local_file s with
  | Some f =>
      match read_error f with
      | None =>
          match parse (content f) with
          | Parsed _ => false
          | ParseFailure _ => true
          end
      | Some _ => true
      end
  | None => false
  end.

(** What the remote end serves to the sync script: the text of the body,
    when the response is complete, its status is 200 and the text is
    well-formed JSON. *)
Definition served (P : platform) : option string :=
  match http_get P SyncScript.REMOTE_URL with
  | HttpResponse statusCode chunks =>
      if Z.eqb statusCode 200 && SyncScript.isValidJSON P (stream_text P chunks)
      then Some (stream_text P chunks)
      else None
  | _ => None
  end.

(** The download of the sync script never settles: a 200 response that is
    cut before its end. *)
Definition stalls (P : platform) : bool :=
  match http_get P SyncScript.REMOTE_URL with
  | HttpAborted statusCode _ _ => Z.eqb statusCode 200
  | _ => false
  end.

(** The sync run goes through: the remote end serves valid JSON, the write
    and -- when the file existed with a non-zero mode -- the [chmodSync]
    raise nothing, and the file can be read back. *)
Definition sync_succeeds (P : platform) (s : machine) : bool :=
  match served P, write_error s with
  | Some _, None =>
      match local_file s with
      | Some f =>
          (Z.eqb (mode f) 0
           || match chmod_error s with None => true | Some _ => false end)
          && match read_error f with None => true | Some _ => false end
      | None => true
      end
  | _, _ => false
  end.

(** The three ways a run of the sync script ends. *)
Inductive ending : Type :=
| EndsCompleted     (* every step went through *)
| EndsFailed        (* a step threw: [catch], [process.exit(1)] *)
| EndsStalled.      (* the download never settled *)

Definition sync_ending (P : platform) (s : machine) : ending :=
  if stalls P then EndsStalled
  else if sync_succeeds P s then EndsCompleted
  else EndsFailed.

(** The local file after a write of [text] that went through. *)
Definition rewritten (text : string) (s : machine) : file :=
  match local_file s with
  | Some f => File text (mode f) (read_error f)
  | None => File text (created_mode s) None
  end.

(* ================================================================== *)
(** ** Basic facts about the model *)

Lemma this_registry_loaded (h : heap) (this : ref) (doc : value) :
  loaded h this doc -> this_registry this h = (Normal doc, h).
Proof.
  unfold loaded, this_registry. intros Hl.
  now rewrite (nth_error_nth _ _ VUndefined Hl).
Qed.

Lemma is_RegistryDocument_inv (doc : value) :
  is_RegistryDocument doc = true ->
  exists props ps,
    doc = VObj props /\ assoc "providers" props = Some (VArr ps) /\
    forallb is_Provider ps = true /\ providers_of doc = ps.
Proof.
  unfold is_RegistryDocument, providers_of.
  destruct doc as [| | b | n | s | l | props]; cbn [field]; try discriminate.
  destruct (assoc "providers" props) as [[| | b | n | s | ps | o] |] eqn:E;
    try discriminate.
  intros Hall. exists props, ps. repeat split; assumption || reflexivity.
Qed.

Lemma is_Provider_inv (p : value) :
  is_Provider p = true ->
  exists props s, p = VObj props /\ assoc "id" props = Some (VStr s).
Proof.
  destruct p as [| | b | n | s | l | props]; cbn [is_Provider]; try discriminate.
  destruct (assoc "id" props) as [[| | b | n | s | l | o] |] eqn:E;
    cbn [andb]; try discriminate.
  intros _. now exists props, s.
Qed.

(** On a Provider the arrow function answers whether the ids are the same
    string, and throws nothing. *)
Lemma id_matches_Provider (providerId : string) (p : value) (h : heap) :
  is_Provider p = true ->
  id_matches providerId p h =
    (Normal (VBool match provider_id p with
                   | Some s => String.eqb s providerId
                   | None => false
                   end), h).
Proof.
  intros Hp. destruct (is_Provider_inv p Hp) as (props & s & -> & Hid).
  unfold id_matches, bind, prop, lift, provider_id.
  cbn [get_prop field]. now rewrite Hid.
Qed.

Lemma provider_id_eqb (p : value) (providerId : string) :
  match provider_id p with
  | Some s => String.eqb s providerId
  | None => false
  end = true <-> provider_id p = Some providerId.
Proof.
  destruct (provider_id p) as [s |].
  - rewrite String.eqb_eq. split; congruence.
  - split; discriminate.
Qed.

(** The scan finds nothing when no provider carries the id ... *)
Lemma find_no_match (providerId : string) (ps : list value) (h : heap) :
  forallb is_Provider ps = true ->
  (forall p, In p ps -> provider_id p <> Some providerId) ->
  find (id_matches providerId) ps h = (Normal VUndefined, h).
Proof.
  induction ps as [| q rest IH]; intros Hwf Hno.
  - reflexivity.
  - cbn [forallb] in Hwf. apply andb_true_iff in Hwf as [Hq Hrest].
    cbn [find]. unfold bind at 1. rewrite (id_matches_Provider _ _ _ Hq).
    destruct (match provider_id q with
              | Some s => String.eqb s providerId
              | None => false
              end) eqn:E.
    + apply provider_id_eqb in E. exfalso. apply (Hno q); [now left | exact E].
    + cbn [truthy]. apply IH; [exact Hrest |].
      intros p Hin. apply Hno. now right.
Qed.

(** ... and stops at the first provider that does, whatever follows it. *)
Lemma find_first_match (providerId : string) (before after : list value)
      (p : value) (h : heap) :
  forallb is_Provider before = true ->
  (forall q, In q before -> provider_id q <> Some providerId) ->
  is_Provider p = true ->
  provider_id p = Some providerId ->
  find (id_matches providerId) (before ++ p :: after)%list h = (Normal p, h).
Proof.
  induction before as [| q rest IH]; intros Hwf Hno Hp Hid.
  - cbn [app find]. unfold bind at 1. rewrite (id_matches_Provider _ _ _ Hp).
    rewrite Hid, String.eqb_refl. reflexivity.
  - cbn [forallb] in Hwf. apply andb_true_iff in Hwf as [Hq Hrest].
    cbn [app find]. unfold bind at 1. rewrite (id_matches_Provider _ _ _ Hq).
    destruct (match provider_id q with
              | Some s => String.eqb s providerId
              | None => false
              end) eqn:E.
    + apply provider_id_eqb in E. exfalso. apply (Hno q); [now left | exact E].
    + cbn [truthy]. apply IH; auto.
      intros r Hin. apply Hno. now right.
Qed.

(** Entering a method on a loaded, well-formed document: the reads of
    [this.registry] and of [providers] are replaced by their values. *)
Ltac enter Hl Hps :=
  unfold bind;
  repeat (rewrite (this_registry_loaded _ _ _ Hl);
          cbn [truthy negb prop lift get_prop]);
  rewrite ?Hps; cbn [array_find].

Lemma is_Provider_fields (p : value) :
  is_Provider p = true ->
  exists props s,
    p = VObj props /\ assoc "id" props = Some (VStr s) /\
    (assoc "website" props = None \/
     exists w, assoc "website" props = Some (VStr w)) /\
    (assoc "models" props = None \/
     exists ms, assoc "models" props = Some (VArr ms)) /\
    (assoc "api_config" props = None \/
     exists cfg, assoc "api_config" props = Some (VObj cfg) /\
       (assoc "auth" cfg = None \/
        exists a, assoc "auth" cfg = Some (VObj a))).
Proof.
  destruct p as [| | b | n | s | l | props]; cbn [is_Provider]; try discriminate.
  rewrite !andb_true_iff. intros [[[Hid Hw] Hm] Hc].
  destruct (assoc "id" props) as [[| | b | n | s | l | o] |] eqn:Eid;
    try discriminate.
  exists props, s. split; [reflexivity |]. split; [exact Eid |].
  split; [| split].
  - destruct (assoc "website" props) as [[| | b | n | w | l | o] |];
      try discriminate; eauto.
  - destruct (assoc "models" props) as [[| | b | n | w | ms | o] |];
      try discriminate; eauto.
  - destruct (assoc "api_config" props) as [[| | b | n | w | l | cfg] |];
      try discriminate; [| now left].
    right. exists cfg. split; [reflexivity |].
    destruct (assoc "auth" cfg) as [[| | b | n | w | l | a] |];
      try discriminate; eauto.
Qed.

(** On a well-formed provider sequence the scan of the code and the lookup
    of the specification agree. *)
Lemma find_lookup_spec (providerId : string) (ps : list value) (h : heap) :
  forallb is_Provider ps = true ->
  find (id_matches providerId) ps h =
    (Normal match lookup_spec providerId ps with
            | Some p => p
            | None => VUndefined
            end, h).
Proof.
  induction ps as [| q rest IH]; intros Hwf.
  - reflexivity.
  - cbn [forallb] in Hwf. apply andb_true_iff in Hwf as [Hq Hrest].
    cbn [find lookup_spec]. unfold bind at 1.
    rewrite (id_matches_Provider _ _ _ Hq).
    destruct (provider_id q) as [s |].
    + destruct (String.eqb s providerId); cbn [truthy]; [reflexivity | auto].
    + cbn [truthy]. auto.
Qed.

Lemma lookup_spec_first_match (providerId : string)
      (before after : list value) (p : value) :
  (forall q, In q before -> provider_id q <> Some providerId) ->
  provider_id p = Some providerId ->
  lookup_spec providerId (before ++ p :: after)%list = Some p.
Proof.
  induction before as [| q rest IH]; intros Hno Hid.
  - cbn [app lookup_spec]. now rewrite Hid, String.eqb_refl.
  - cbn [app lookup_spec].
    destruct (provider_id q) as [s |] eqn:E.
    + destruct (String.eqb s providerId) eqn:Es.
      * apply String.eqb_eq in Es. subst s.
        exfalso. apply (Hno q); [now left | exact E].
      * apply IH; [| exact Hid]. intros r Hin. apply Hno. now right.
    + apply IH; [| exact Hid]. intros r Hin. apply Hno. now right.
Qed.

(** With unique ids, the provider carrying an id is the first match. *)
Lemma unique_id_first_match (providerId : string) (ps : list value)
      (p : value) :
  NoDup (map provider_id ps) ->
  In p ps -> provider_id p = Some providerId ->
  exists before after,
    ps = (before ++ p :: after)%list /\
    forall q, In q before -> provider_id q <> Some providerId.
Proof.
  intros Hnd Hin Hid.
  destruct (in_split p ps Hin) as (before & after & ->).
  exists before, after. split; [reflexivity |].
  rewrite map_app in Hnd. cbn [map] in Hnd.
  apply NoDup_remove_2 in Hnd.
  intros q Hq Hqid. apply Hnd. apply in_or_app. left.
  rewrite Hid, <- Hqid. now apply in_map.
Qed.

(** An id that some provider carries has a first provider carrying it. *)
Lemma present_first_match (providerId : string) (ps : list value) (p : value) :
  In p ps -> provider_id p = Some providerId ->
  exists before p0 after,
    ps = (before ++ p0 :: after)%list /\
    (forall q, In q before -> provider_id q <> Some providerId) /\
    provider_id p0 = Some providerId.
Proof.
  induction ps as [| q rest IH]; intros Hin Hid; [contradiction |].
  assert (Hdec : provider_id q = Some providerId \/
                 provider_id q <> Some providerId).
  { destruct (provider_id q) as [s |]; [| right; discriminate].
    destruct (string_dec s providerId) as [-> | Hne];
      [now left | right; congruence]. }
  destruct Hdec as [Hq | Hq].
  - exists [], q, rest. split; [reflexivity |]. split; [| exact Hq].
    intros r [].
  - destruct Hin as [-> | Hin]; [contradiction |].
    destruct (IH Hin Hid) as (before & p0 & after & -> & Hno & Hp0).
    exists (q :: before), p0, after. split; [reflexivity |].
    split; [| exact Hp0].
    intros r [<- | Hr]; [exact Hq | now apply Hno].
Qed.

(** The three id-keyed accessors of both editions on a loaded, well-formed
    document whose first provider with the id is [p]. *)
Lemma accessors_first_match (h : heap) (this : ref) (doc : value)
      (providerId : string) (before after : list value) (p : value) :
  loaded h this doc ->
  is_RegistryDocument doc = true ->
  providers_of doc = (before ++ p :: after)%list ->
  (forall q, In q before -> provider_id q <> Some providerId) ->
  provider_id p = Some providerId ->
  (Unguarded.getProviderModels this providerId h = (Normal (models_of p), h) /\
   Unguarded.getProviderWebsite this providerId h = (Normal (website_of p), h) /\
   Unguarded.getProviderAuth this providerId h = (Normal (auth_of p), h)) /\
  (Guarded.getProviderModels this providerId h = (Normal (models_of p), h) /\
   Guarded.getProviderWebsite this providerId h = (Normal (website_of p), h) /\
   Guarded.getProviderAuth this providerId h = (Normal (auth_of p), h)).
Proof.
  intros Hl Hwf Hsplit Hno Hid.
  destruct (is_RegistryDocument_inv doc Hwf)
    as (props & ps & -> & Hps & Hall & Hpo).
  rewrite Hpo in Hsplit. subst ps.
  rewrite forallb_app in Hall. apply andb_true_iff in Hall as [Hb Hpa].
  cbn [forallb] in Hpa. apply andb_true_iff in Hpa as [Hp _].
  pose proof (find_first_match providerId before after p h Hb Hno Hp Hid) as Hf.
  destruct (is_Provider_fields p Hp)
    as (pp & s & -> & Hi & Hw & Hm & Hc).
  unfold Unguarded.getProviderModels, Unguarded.getProviderWebsite,
    Unguarded.getProviderAuth, Guarded.getProviderModels,
    Guarded.getProviderWebsite, Guarded.getProviderAuth,
    models_of, website_of, auth_of.
  enter Hl Hps. rewrite Hf. cbn [truthy negb field prop lift get_prop].
  destruct Hm as [Hm | [ms Hm]]; rewrite Hm;
    destruct Hc as [Hc | (cfg & Hc & [Ha | [a Ha]])]; rewrite Hc;
    unfold prop, lift; cbn [truthy get_prop field]; rewrite ?Ha;
    cbn [truthy get_prop]; rewrite ?Ha;
    repeat split; reflexivity.
Qed.

(* ================================================================== *)
(** ** The accessors only read *)

Lemma preserves_ret {A} (a : A) : preserves (ret a).
Proof. now intros h. Qed.

Lemma preserves_throw {A} (e : exn) : preserves (@throw A e).
Proof. now intros h. Qed.

Lemma preserves_prop (v : value) (k : string) : preserves (prop v k).
Proof. now intros h. Qed.

Lemma preserves_this_registry (this : ref) : preserves (this_registry this).
Proof. now intros h. Qed.

Lemma preserves_bind {A B} (m : M A) (k : A -> M B) :
  preserves m -> (forall a, preserves (k a)) -> preserves (bind m k).
Proof.
  intros Hm Hk h. unfold bind. specialize (Hm h).
  destruct (m h) as [[a | e] h']; cbn [snd] in *; subst h'.
  - apply Hk.
  - reflexivity.
Qed.

Lemma preserves_find (cb : value -> M value) (elems : list value) :
  (forall p, preserves (cb p)) -> preserves (find cb elems).
Proof.
  intros Hcb. induction elems as [| p rest IH]; cbn [find].
  - apply preserves_ret.
  - apply preserves_bind; [apply Hcb |].
    intros r. destruct (truthy r); [apply preserves_ret | exact IH].
Qed.

Lemma preserves_id_matches (providerId : string) (p : value) :
  preserves (id_matches providerId p).
Proof.
  unfold id_matches. apply preserves_bind; [apply preserves_prop |].
  intros i. apply preserves_ret.
Qed.

Lemma preserves_array_find (arr : value) (cb : value -> M value) :
  (forall p, preserves (cb p)) -> preserves (array_find arr cb).
Proof.
  intros Hcb. destruct arr; cbn [array_find];
    try apply preserves_throw. now apply preserves_find.
Qed.

Ltac read_only :=
  repeat first
    [ apply preserves_ret
    | apply preserves_throw
    | apply preserves_prop
    | apply preserves_this_registry
    | apply preserves_id_matches
    | apply preserves_array_find; intro
    | apply preserves_bind; [| intro]
    | match goal with
      | |- preserves (if ?b then _ else _) => destruct b
      end ].

Lemma preserves_invoke (A : accessors) (this : ref) (c : call) :
  A = unguarded \/ A = guarded -> preserves (invoke A this c).
Proof.
  intros [-> | ->]; destruct c; cbn [invoke unguarded guarded
    acc_getProviders acc_getProviderModels acc_getProviderWebsite
    acc_getProviderAuth];
    unfold Unguarded.getProviders, Unguarded.getProviderModels,
      Unguarded.getProviderWebsite, Unguarded.getProviderAuth,
      Guarded.getProviders, Guarded.getProviderModels,
      Guarded.getProviderWebsite, Guarded.getProviderAuth;
    read_only.
Qed.

Lemma run_calls_heap (A : accessors) (this : ref) (cs : list call) (h : heap) :
  A = unguarded \/ A = guarded -> snd (run_calls A this cs h) = h.
Proof.
  intros HA. revert h. induction cs as [| c rest IH]; intros h.
  - reflexivity.
  - cbn [run_calls]. pose proof (preserves_invoke A this c HA h) as Hc.
    destruct (invoke A this c h) as [r h']. cbn [snd] in Hc. subst h'.
    specialize (IH h). destruct (run_calls A this rest h) as [rs h''].
    exact IH.
Qed.

(* ================================================================== *)
(** ** Listing the providers *)

(** On a loaded document both editions return the provider sequence itself:
    same elements, same order. *)
Lemma getProviders_loaded (h : heap) (this : ref) (doc : value) :
  loaded h this doc ->
  is_RegistryDocument doc = true ->
  Unguarded.getProviders this h = (Normal (VArr (providers_of doc)), h) /\
  Guarded.getProviders this h = (Normal (VArr (providers_of doc)), h).
Proof.
  intros Hl Hwf.
  destruct (is_RegistryDocument_inv doc Hwf)
    as (props & ps & -> & Hps & _ & ->).
  unfold Unguarded.getProviders, Guarded.getProviders.
  enter Hl Hps. unfold prop, lift. cbn [truthy get_prop].
  rewrite (this_registry_loaded _ _ _ Hl). cbn [get_prop]. rewrite Hps.
  now split.
Qed.

(** Without a document the guarded edition answers the empty sequence. *)
Lemma Guarded_getProviders_documentless (h : heap) (this : ref) (r : value) :
  loaded h this r -> truthy r = false ->
  Guarded.getProviders this h = (Normal (VArr []), h).
Proof.
  intros Hl Hr. unfold Guarded.getProviders, bind.
  rewrite (this_registry_loaded _ _ _ Hl), Hr. unfold ret. now rewrite Hr.
Qed.

(** C1 (behaviour of [src/index.js] on the documentless handle): when no
    local registry was found, the handle exported by the module is built
    without a document, and [getProviders()] on it does not return an empty
    sequence: reading [providers] of [null] throws a TypeError.  The edition
    in [src/unnamed/part_000] returns the empty sequence on the same
    handle. *)
Theorem C1_getProviders_documentless_throws :
  exists (sdk : ref) (h1 : heap) (msg : string),
    Unguarded.default_export empty_heap = (Normal sdk, h1) /\
    loaded h1 sdk VNull /\
    Unguarded.getProviders sdk h1 = (Throw (Exn TypeErrorC msg), h1) /\
    Guarded.getProviders sdk h1 = (Normal (VArr []), h1).
Proof.
  eexists _, _, _. repeat split; vm_compute; reflexivity.
Qed.

(* ================================================================== *)
(** ** Lookups by id *)

(** C2: on a loaded registry document, for an id that no provider carries,
    [getProviderModels], [getProviderWebsite] and [getProviderAuth] of both
    editions throw the provider-not-found error; none of them returns a
    value. *)
Theorem C2_absent_id_not_found (h : heap) (this : ref) (doc : value)
        (providerId : string) :
  loaded h this doc ->
  is_RegistryDocument doc = true ->
  (forall p, In p (providers_of doc) -> provider_id p <> Some providerId) ->
  (Unguarded.getProviderModels this providerId h
     = (Throw (ProviderNotFoundError providerId), h) /\
   Unguarded.getProviderWebsite this providerId h
     = (Throw (ProviderNotFoundError providerId), h) /\
   Unguarded.getProviderAuth this providerId h
     = (Throw (ProviderNotFoundError providerId), h)) /\
  (Guarded.getProviderModels this providerId h
     = (Throw (ProviderNotFoundError providerId), h) /\
   Guarded.getProviderWebsite this providerId h
     = (Throw (ProviderNotFoundError providerId), h) /\
   Guarded.getProviderAuth this providerId h
     = (Throw (ProviderNotFoundError providerId), h)).
Proof.
  intros Hl Hwf Hno.
  destruct (is_RegistryDocument_inv doc Hwf)
    as (props & ps & -> & Hps & Hall & Hpo).
  rewrite Hpo in Hno.
  unfold Unguarded.getProviderModels, Unguarded.getProviderWebsite,
    Unguarded.getProviderAuth, Guarded.getProviderModels,
    Guarded.getProviderWebsite, Guarded.getProviderAuth.
  enter Hl Hps.
  rewrite (find_no_match _ _ _ Hall Hno). cbn [truthy negb].
  repeat split; reflexivity.
Qed.

Lemma C2_absent_id_not_found_witness :
  Unguarded.getProviderModels 0 "nonexistent" sample_heap
    = (Throw (Error "Provider with ID 'nonexistent' not found."), sample_heap)
  /\ Guarded.getProviderAuth 0 "nonexistent" sample_heap
    = (Throw (Error "Provider with ID 'nonexistent' not found."), sample_heap).
Proof.
  assert (H : forall p, In p (providers_of sample_document) ->
                        provider_id p <> Some "nonexistent").
  { intros p Hin. vm_compute in Hin.
    destruct Hin as [<- | [<- | [<- | []]]]; vm_compute; discriminate. }
  pose proof (C2_absent_id_not_found sample_heap 0 sample_document
                "nonexistent" eq_refl eq_refl H) as [[Hm _] [_ [_ Ha]]].
  split; [exact Hm | exact Ha].
Defined.

(** C5: on a loaded registry document, for the id of a provider [p] of the
    document, [getProviderModels] never throws and returns a sequence; ids
    being unique, it is [p]'s [models] sequence when [p] has one and the
    empty sequence when the field is absent. *)
Theorem C5_getProviderModels_present (h : heap) (this : ref) (doc : value)
        (providerId : string) (p : value) :
  loaded h this doc ->
  is_RegistryDocument doc = true ->
  In p (providers_of doc) ->
  provider_id p = Some providerId ->
  (exists ms,
     Unguarded.getProviderModels this providerId h = (Normal (VArr ms), h) /\
     Guarded.getProviderModels this providerId h = (Normal (VArr ms), h)) /\
  (NoDup (map provider_id (providers_of doc)) ->
   (forall ms, field "models" p = Some (VArr ms) ->
      Unguarded.getProviderModels this providerId h = (Normal (VArr ms), h) /\
      Guarded.getProviderModels this providerId h = (Normal (VArr ms), h)) /\
   (field "models" p = None ->
      Unguarded.getProviderModels this providerId h = (Normal (VArr []), h) /\
      Guarded.getProviderModels this providerId h = (Normal (VArr []), h))).
Proof.
  intros Hl Hwf Hin Hid. split.
  - destruct (present_first_match providerId _ p Hin Hid)
      as (before & p0 & after & Hsplit & Hno & Hid0).
    destruct (accessors_first_match h this doc providerId before after p0
                Hl Hwf Hsplit Hno Hid0) as [[Hu _] [Hg _]].
    rewrite Hu, Hg. unfold models_of.
    assert (Hp : is_Provider p0 = true).
    { destruct (is_RegistryDocument_inv doc Hwf)
        as (? & ps & _ & _ & Hall & Hpo).
      rewrite Hpo in Hsplit. rewrite forallb_forall in Hall.
      apply Hall. rewrite Hsplit. apply in_or_app. right. now left. }
    destruct (is_Provider_fields p0 Hp)
      as (pp & s & -> & _ & _ & [Hm | [ms Hm]] & _);
      cbn [field]; rewrite Hm; eauto.
  - intros Hnd.
    destruct (unique_id_first_match providerId _ p Hnd Hin Hid)
      as (before & after & Hsplit & Hno).
    destruct (accessors_first_match h this doc providerId before after p
                Hl Hwf Hsplit Hno Hid) as [[Hu _] [Hg _]].
    rewrite Hu, Hg. unfold models_of. split.
    + intros ms Hms. now rewrite Hms.
    + intros Hms. now rewrite Hms.
Qed.

Lemma sample_ids_unique : NoDup (map provider_id (providers_of sample_document)).
Proof.
  vm_compute. repeat constructor; cbn [In];
    intros H; repeat destruct H as [H | H]; try discriminate H; exact H.
Qed.

Lemma C5_getProviderModels_present_witness :
  Unguarded.getProviderModels 0 "openai" sample_heap
    = (Normal (VArr [gpt4]), sample_heap)
  /\ Guarded.getProviderModels 0 "acme" sample_heap
    = (Normal (VArr []), sample_heap).
Proof.
  split.
  - exact (proj1 (proj1 (proj2
      (C5_getProviderModels_present sample_heap 0 sample_document
         "openai" openai eq_refl eq_refl (or_introl eq_refl) eq_refl)
      sample_ids_unique) [gpt4] eq_refl)).
  - exact (proj2 (proj2 (proj2
      (C5_getProviderModels_present sample_heap 0 sample_document
         "acme" acme eq_refl eq_refl (or_intror (or_introl eq_refl)) eq_refl)
      sample_ids_unique) eq_refl)).
Defined.

(** C6: on a loaded registry document (ids unique), for the id of a provider
    of the document, [getProviderWebsite] returns the provider's [website]
    string, and [undefined] when the provider has no such field;
    [getProviderAuth] returns the object under [api_config.auth], and [null]
    when the provider has no [api_config] or its [api_config] has no
    [auth]. *)
Theorem C6_website_and_auth_present (h : heap) (this : ref) (doc : value)
        (providerId : string) (p : value) :
  loaded h this doc ->
  is_RegistryDocument doc = true ->
  NoDup (map provider_id (providers_of doc)) ->
  In p (providers_of doc) ->
  provider_id p = Some providerId ->
  (forall w, field "website" p = Some (VStr w) ->
     Unguarded.getProviderWebsite this providerId h = (Normal (VStr w), h) /\
     Guarded.getProviderWebsite this providerId h = (Normal (VStr w), h)) /\
  (field "website" p = None ->
     Unguarded.getProviderWebsite this providerId h = (Normal VUndefined, h) /\
     Guarded.getProviderWebsite this providerId h = (Normal VUndefined, h)) /\
  (forall cfg a,
     field "api_config" p = Some cfg -> field "auth" cfg = Some (VObj a) ->
     Unguarded.getProviderAuth this providerId h = (Normal (VObj a), h) /\
     Guarded.getProviderAuth this providerId h = (Normal (VObj a), h)) /\
  (field "api_config" p = None ->
     Unguarded.getProviderAuth this providerId h = (Normal VNull, h) /\
     Guarded.getProviderAuth this providerId h = (Normal VNull, h)) /\
  (forall cfg,
     field "api_config" p = Some cfg -> field "auth" cfg = None ->
     Unguarded.getProviderAuth this providerId h = (Normal VNull, h) /\
     Guarded.getProviderAuth this providerId h = (Normal VNull, h)).
Proof.
  intros Hl Hwf Hnd Hin Hid.
  destruct (unique_id_first_match providerId _ p Hnd Hin Hid)
    as (before & after & Hsplit & Hno).
  destruct (accessors_first_match h this doc providerId before after p
              Hl Hwf Hsplit Hno Hid) as [(_ & Huw & Hua) (_ & Hgw & Hga)].
  rewrite Huw, Hua, Hgw, Hga. unfold website_of, auth_of.
  split; [| split; [| split; [| split]]].
  - intros w Hw. now rewrite Hw.
  - intros Hw. now rewrite Hw.
  - intros cfg a Hc Ha. now rewrite Hc, Ha.
  - intros Hc. now rewrite Hc.
  - intros cfg Hc Ha. now rewrite Hc, Ha.
Qed.

Lemma C6_website_and_auth_present_witness :
  (Unguarded.getProviderWebsite 0 "openai" sample_heap
     = (Normal (VStr "https://openai.com"), sample_heap) /\
   Guarded.getProviderAuth 0 "openai" sample_heap
     = (Normal VNull, sample_heap)) /\
  (Guarded.getProviderWebsite 0 "acme" sample_heap
     = (Normal VUndefined, sample_heap) /\
   Unguarded.getProviderAuth 0 "acme" sample_heap
     = (Normal (VObj bearer), sample_heap)) /\
  Guarded.getProviderAuth 0 "bare" sample_heap = (Normal VNull, sample_heap).
Proof.
  pose proof (C6_website_and_auth_present sample_heap 0 sample_document
                "openai" openai eq_refl eq_refl sample_ids_unique
                (or_introl eq_refl) eq_refl) as (Ho & _ & _ & Hn & _).
  pose proof (C6_website_and_auth_present sample_heap 0 sample_document
                "acme" acme eq_refl eq_refl sample_ids_unique
                (or_intror (or_introl eq_refl)) eq_refl)
    as (_ & Hw & Ha & _ & _).
  pose proof (C6_website_and_auth_present sample_heap 0 sample_document
                "bare" bare eq_refl eq_refl sample_ids_unique
                (or_intror (or_intror (or_introl eq_refl))) eq_refl)
    as (_ & _ & _ & _ & Hb).
  split; [split | split; [split |]].
  - exact (proj1 (Ho "https://openai.com" eq_refl)).
  - exact (proj2 (Hn eq_refl)).
  - exact (proj2 (Hw eq_refl)).
  - exact (proj1 (Ha (VObj [("auth", VObj bearer)]) bearer eq_refl eq_refl)).
  - exact (proj2 (Hb (VObj []) eq_refl eq_refl)).
Defined.

(** C8: on a loaded registry document, the scan the id-keyed accessors run
    is the specification's lookup (linear, by exact string equality on
    [id]); and when the first provider carrying the id is [p], whatever
    comes after it -- other providers with the same id included -- every
    accessor of both editions answers from [p]. *)
Theorem C8_lookup_first_match (h : heap) (this : ref) (doc : value)
        (providerId : string) :
  loaded h this doc ->
  is_RegistryDocument doc = true ->
  find (id_matches providerId) (providers_of doc) h =
    (Normal match lookup_spec providerId (providers_of doc) with
            | Some p => p
            | None => VUndefined
            end, h) /\
  forall before p after,
    providers_of doc = (before ++ p :: after)%list ->
    (forall q, In q before -> provider_id q <> Some providerId) ->
    provider_id p = Some providerId ->
    lookup_spec providerId (providers_of doc) = Some p /\
    (Unguarded.getProviderModels this providerId h = (Normal (models_of p), h) /\
     Unguarded.getProviderWebsite this providerId h = (Normal (website_of p), h) /\
     Unguarded.getProviderAuth this providerId h = (Normal (auth_of p), h)) /\
    (Guarded.getProviderModels this providerId h = (Normal (models_of p), h) /\
     Guarded.getProviderWebsite this providerId h = (Normal (website_of p), h) /\
     Guarded.getProviderAuth this providerId h = (Normal (auth_of p), h)).
Proof.
  intros Hl Hwf. split.
  - destruct (is_RegistryDocument_inv doc Hwf) as (? & ps & _ & _ & Hall & ->).
    now apply find_lookup_spec.
  - intros before p after Hsplit Hno Hid. split.
    + rewrite Hsplit. now apply lookup_spec_first_match.
    + now apply (accessors_first_match h this doc providerId before after p).
Qed.

Lemma C8_lookup_first_match_witness :
  lookup_spec "openai" (providers_of duplicated_document) = Some openai /\
  Unguarded.getProviderWebsite 1 "openai" sample_heap
    = (Normal (VStr "https://openai.com"), sample_heap) /\
  Guarded.getProviderModels 1 "openai" sample_heap
    = (Normal (VArr [gpt4]), sample_heap).
Proof.
  assert (Hno : forall q, In q [acme] -> provider_id q <> Some "openai").
  { intros q [<- | []]. vm_compute. discriminate. }
  pose proof (proj2 (C8_lookup_first_match sample_heap 1 duplicated_document
                       "openai" eq_refl eq_refl)
                [acme] openai [openai_again] eq_refl Hno eq_refl)
    as (Hs & (_ & Hw & _) & (Hm & _)).
  split; [exact Hs | split; [exact Hw | exact Hm]].
Defined.

(** Ids are compared as written: no case folding, no trimming. *)
Example lookup_is_exact :
  Guarded.getProviderWebsite 0 "OpenAI" sample_heap
    = (Throw (ProviderNotFoundError "OpenAI"), sample_heap) /\
  Unguarded.getProviderWebsite 0 "openai " sample_heap
    = (Throw (ProviderNotFoundError "openai "), sample_heap).
Proof. split; reflexivity. Qed.

(** C9: whatever sequence of accessor calls is issued on a handle, in
    either edition, and whether the calls return or throw, the program state
    -- and with it the document of every handle -- is afterwards what it was
    before. *)
Theorem C9_accessors_read_only (cs : list call) (this : ref) (h : heap) :
  snd (run_calls unguarded this cs h) = h /\
  snd (run_calls guarded this cs h) = h /\
  forall doc, loaded h this doc ->
    loaded (snd (run_calls unguarded this cs h)) this doc /\
    loaded (snd (run_calls guarded this cs h)) this doc.
Proof.
  rewrite !run_calls_heap by auto. auto.
Qed.

(** C10: in the guarded edition, on a handle without a document (its
    [registry] is [null], or any other falsy value), [getProviderModels]
    returns the empty sequence and [getProviderWebsite] and [getProviderAuth]
    return [null], for every id; so no provider-not-found error is thrown
    there, and the two result shapes differ. *)
Theorem C10_guarded_documentless (h : heap) (this : ref) (r : value)
        (providerId : string) :
  loaded h this r ->
  truthy r = false ->
  Guarded.getProviderModels this providerId h = (Normal (VArr []), h) /\
  Guarded.getProviderWebsite this providerId h = (Normal VNull, h) /\
  Guarded.getProviderAuth this providerId h = (Normal VNull, h) /\
  fst (Guarded.getProviderModels this providerId h)
    <> fst (Guarded.getProviderWebsite this providerId h).
Proof.
  intros Hl Hr.
  unfold Guarded.getProviderModels, Guarded.getProviderWebsite,
    Guarded.getProviderAuth, bind.
  rewrite (this_registry_loaded _ _ _ Hl), Hr. cbn [negb ret fst].
  repeat split. discriminate.
Qed.

Lemma C10_guarded_documentless_witness :
  Guarded.getProviderModels 2 "openai" sample_heap
    = (Normal (VArr []), sample_heap) /\
  Guarded.getProviderWebsite 2 "openai" sample_heap
    = (Normal VNull, sample_heap) /\
  Guarded.getProviderAuth 2 "openai" sample_heap
    = (Normal VNull, sample_heap).
Proof.
  pose proof (C10_guarded_documentless sample_heap 2 VNull "openai"
                eq_refl eq_refl) as (Hm & Hw & Ha & _).
  split; [exact Hm | split; [exact Hw | exact Ha]].
Defined.

(* ================================================================== *)
(** ** Construction *)

Lemma set_nth_fresh (l : list value) (v w : value) :
  set_nth (List.length l) v (l ++ [w])%list = (l ++ [v])%list.
Proof.
  induction l as [| x rest IH]; cbn [List.length app set_nth].
  - reflexivity.
  - now rewrite IH.
Qed.

Lemma nth_fresh (l : list value) (v d : value) :
  nth (List.length l) (l ++ [v])%list d = v.
Proof.
  induction l as [| x rest IH]; cbn [List.length app nth]; auto.
Qed.

(** The constructor, evaluated: it allocates the next reference, stores
    [data || localRegistry] and warns when that is falsy. *)
Lemma constructor_eval (data : value) (h : heap) :
  let r := if truthy data then data else localRegistry h in
  Unguarded.constructor data h =
    (Normal (List.length (instances h)),
     Heap (localRegistry h) (instances h ++ [r])%list
          (if truthy r then console h
           else (console h ++ [no_registry_warning])%list)) /\
  Guarded.constructor data h = Unguarded.constructor data h.
Proof.
  intros r. split; [| reflexivity].
  unfold Unguarded.constructor, bind, alloc, read_localRegistry,
    set_registry, this_registry, console_warn, ret.
  cbn [localRegistry instances console].
  rewrite set_nth_fresh, nth_fresh. fold r.
  destruct (truthy r); reflexivity.
Qed.

Lemma loaded_app (h : heap) (this : ref) (doc : value) (more : list value)
      (c : list string) :
  loaded h this doc ->
  loaded (Heap (localRegistry h) (instances h ++ more)%list c) this doc.
Proof.
  unfold loaded. cbn [instances]. intros Hl.
  rewrite nth_error_app1; [exact Hl |].
  apply nth_error_Some. congruence.
Qed.

Lemma loaded_fresh (l : value) (ins : list value) (v : value)
      (c : list string) :
  loaded (Heap l (ins ++ [v])%list c) (List.length ins) v.
Proof.
  unfold loaded. cbn [instances].
  rewrite nth_error_app2 by apply Nat.le_refl.
  now rewrite Nat.sub_diag.
Qed.

(** C7: the constructor always completes normally, in both editions.  Given
    an explicit document (an object, hence truthy) the new handle holds
    exactly that document; given none it holds the local registry; and when
    that is absent too the handle is built without a document and one
    warning line is written.  Handles built earlier keep their documents. *)
Theorem C7_constructor_never_fails (data : value) (h : heap) :
  exists h',
    Unguarded.constructor data h = (Normal (List.length (instances h)), h') /\
    Guarded.constructor data h = (Normal (List.length (instances h)), h') /\
    localRegistry h' = localRegistry h /\
    (forall other doc, loaded h other doc -> loaded h' other doc) /\
    (truthy data = true ->
       loaded h' (List.length (instances h)) data /\ console h' = console h) /\
    (truthy data = false -> truthy (localRegistry h) = true ->
       loaded h' (List.length (instances h)) (localRegistry h) /\
       console h' = console h) /\
    (truthy data = false -> truthy (localRegistry h) = false ->
       loaded h' (List.length (instances h)) (localRegistry h) /\
       console h' = (console h ++ [no_registry_warning])%list).
Proof.
  destruct (constructor_eval data h) as [Hu Hg]. cbv zeta in Hu.
  rewrite Hg, Hu. eexists. split; [reflexivity |]. split; [reflexivity |].
  cbn [localRegistry console]. split; [reflexivity |]. split.
  - intros other doc Hl. now apply loaded_app.
  - split; [| split].
    + intros Hd. rewrite Hd, Hd. split; [apply loaded_fresh | reflexivity].
    + intros Hd Hloc. rewrite Hd, Hloc.
      split; [apply loaded_fresh | reflexivity].
    + intros Hd Hloc. rewrite Hd, Hloc.
      split; [apply loaded_fresh | reflexivity].
Qed.

Lemma RegistryDocument_truthy (doc : value) :
  is_RegistryDocument doc = true -> truthy doc = true.
Proof.
  intros Hwf. now destruct (is_RegistryDocument_inv doc Hwf) as (? & ? & -> & _).
Qed.

Lemma C7_constructor_never_fails_witness :
  (exists h', Unguarded.constructor sample_document empty_heap = (Normal 0, h')
              /\ loaded h' 0 sample_document /\ console h' = []) /\
  (exists h', Guarded.constructor VUndefined empty_heap = (Normal 0, h')
              /\ loaded h' 0 VNull /\ console h' = [no_registry_warning]).
Proof.
  split.
  - destruct (C7_constructor_never_fails sample_document empty_heap)
      as (h' & Hu & _ & _ & _ & Hd & _).
    exists h'. split; [exact Hu | exact (Hd eq_refl)].
  - destruct (C7_constructor_never_fails VUndefined empty_heap)
      as (h' & _ & Hg & _ & _ & _ & _ & Hn).
    exists h'. split; [exact Hg | exact (Hn eq_refl eq_refl)].
Defined.

Lemma C9_accessors_read_only_witness :
  let calls := [CallGetProviders; CallGetProviderModels "openai";
                CallGetProviderWebsite "nonexistent"; CallGetProviderAuth "acme"] in
  loaded (snd (run_calls unguarded 0 calls sample_heap)) 0 sample_document /\
  loaded (snd (run_calls guarded 0 calls sample_heap)) 0 sample_document.
Proof.
  intros calls.
  exact (proj2 (proj2 (C9_accessors_read_only calls 0 sample_heap))
           sample_document eq_refl).
Defined.

(* ================================================================== *)
(** ** Remote fetch *)

Lemma prefix_append (s t : string) : String.prefix s (s ++ t) = true.
Proof.
  induction s as [| a s IH]; cbn [String.append String.prefix].
  - now destruct t.
  - destruct (ascii_dec a a) as [_ | Hne]; [exact IH | now elim Hne].
Qed.

(** The edition of [src/unnamed/part_000] resolves only on a complete
    response with a success status and a body that parses. *)
Lemma Guarded_fetch_resolves_only_on_success (P : platform)
      (url : option string) (h h' : heap) (sdk : ref) :
  Guarded.fetch P url h = (Normal (Resolved sdk), h') ->
  exists status chunks json,
    http_get P (url_or_default url) = HttpResponse status chunks /\
    response_ok status = true /\
    JSON_parse P (guarded_text P chunks) = Parsed json.
Proof.
  unfold Guarded.fetch, settle, Guarded.fetch_native, Guarded.fetch_https,
    try_catch, throw, guarded_text, ret.
  destruct (has_fetch P); [| destruct (has_require P)].
  - destruct (http_get P (url_or_default url))
      as [msg | status chunks | status chunks msg | msg] eqn:Hg;
      try discriminate.
    + destruct (response_ok status) eqn:Hok; cbn [negb]; [| discriminate].
      destruct (JSON_parse P (whole_text P chunks)) as [json | msg] eqn:Hp;
        [| discriminate].
      intros _. now exists status, chunks, json.
    + destruct (response_ok status); discriminate.
  - destruct (http_get P (url_or_default url))
      as [msg | status chunks | status chunks msg | msg] eqn:Hg;
      try discriminate.
    + unfold settle.
      destruct (Z.eqb status 200) eqn:Hs; cbn [negb]; [| discriminate].
      cbv zeta.
      destruct (JSON_parse P (https_text P chunks)) as [json | msg] eqn:Hp;
        [| discriminate].
      intros _. apply Z.eqb_eq in Hs. subst status.
      now exists 200%Z, chunks, json.
    + destruct (Z.eqb status 200); discriminate.
  - discriminate.
Qed.

(** On a non-success status it rejects with the HTTP status error, without
    reading the body; on a connection error with the fetch error. *)
Lemma Guarded_fetch_rejects_failures (P : platform) (url : option string)
      (h : heap) :
  has_fetch P = true \/ has_require P = true ->
  (forall status chunks,
     http_get P (url_or_default url) = HttpResponse status chunks ->
     response_ok status = false ->
     exists e, Guarded.fetch P url h = (Normal (Rejected e), h) /\
               is_HttpStatusError e = true) /\
  (forall msg,
     http_get P (url_or_default url) = ConnectionError msg ->
     Guarded.fetch P url h =
       (Normal (Rejected (Error ("Failed to fetch registry: " ++ msg))), h)).
Proof.
  intros Henv.
  unfold Guarded.fetch, settle, Guarded.fetch_native, Guarded.fetch_https,
    try_catch, throw.
  split.
  - intros status chunks Hget Hok. rewrite Hget.
    destruct (has_fetch P).
    + rewrite Hok. cbn [negb]. eexists. split; [reflexivity |].
      unfold is_HttpStatusError, Error. cbn [message].
      apply orb_true_iff. right.
      exact (prefix_append "Failed to fetch registry: HTTP error! status: "
               (show_number status)).
    + destruct Henv as [Hf | Hr]; [discriminate |]. rewrite Hr.
      assert (Hs : Z.eqb status 200 = false).
      { apply Z.eqb_neq. intros ->. discriminate Hok. }
      unfold settle. rewrite Hs. cbn [negb]. eexists. split; [reflexivity |].
      unfold is_HttpStatusError, Error. cbn [message].
      apply orb_true_iff. left.
      exact (prefix_append "HTTP error! status: " (show_number status)).
  - intros msg Hget. rewrite Hget.
    destruct (has_fetch P); [reflexivity |].
    destruct Henv as [Hf | Hr]; [discriminate |]. now rewrite Hr.
Qed.

(** C3 (behaviour of [src/index.js]): [fetch] does not look at the status
    code.  Whatever the status of the response -- 404 and 500 included --
    a body that parses to a truthy value makes the promise resolve with a
    handle holding that value as its document. *)
Theorem C3_unguarded_fetch_ignores_status (P : platform)
        (url : option string) (h : heap) (status : Z) (chunks : list string)
        (json : value) :
  http_get P (url_or_default url) = HttpResponse status chunks ->
  JSON_parse P (https_text P chunks) = Parsed json ->
  truthy json = true ->
  exists h',
    Unguarded.fetch P url h = (Normal (Resolved (List.length (instances h))), h')
    /\ loaded h' (List.length (instances h)) json.
Proof.
  intros Hget Hparse Hj.
  unfold Unguarded.fetch, settle. rewrite Hget. cbv zeta. rewrite Hparse.
  destruct (constructor_eval json h) as [Hc _]. cbv zeta in Hc.
  rewrite Hc, Hj. eexists. split; [reflexivity | apply loaded_fresh].
Qed.

Lemma C3_unguarded_fetch_ignores_status_witness :
  exists h',
    Unguarded.fetch (node_https (server 404 "{" "}")) None empty_heap
      = (Normal (Resolved 0), h')
    /\ loaded h' 0 (VObj []).
Proof.
  exact (C3_unguarded_fetch_ignores_status
           (node_https (server 404 "{" "}")) None empty_heap
           404 ["{"; "}"] (VObj []) eq_refl eq_refl eq_refl).
Defined.

(** On the same response the edition of [src/unnamed/part_000] rejects, on
    either transport. *)
Example Guarded_fetch_404 :
  Guarded.fetch (node_https (server 404 "{" "}")) None empty_heap
    = (Normal (Rejected (Error "HTTP error! status: 404")), empty_heap) /\
  Guarded.fetch (with_native_fetch (server 404 "{" "}")) None empty_heap
    = (Normal (Rejected
         (Error "Failed to fetch registry: HTTP error! status: 404")),
       empty_heap).
Proof. split; vm_compute; reflexivity. Qed.

(** Over [https] a body that is not JSON is reported as a ParseError, with
    the state as it was: in [src/index.js] whatever the status, in
    [src/unnamed/part_000] on status 200. *)
Lemma https_malformed_body_ParseError (P : platform) (url : option string)
      (h : heap) (status : Z) (chunks : list string) (msg : string) :
  http_get P (url_or_default url) = HttpResponse status chunks ->
  JSON_parse P (https_text P chunks) = ParseFailure msg ->
  rejects_with_ParseError Unguarded.fetch P url h /\
  (has_fetch P = false -> has_require P = true -> status = 200%Z ->
   rejects_with_ParseError Guarded.fetch P url h).
Proof.
  intros Hget Hparse. split.
  - exists (Error ("Failed to parse registry JSON: " ++ msg)). split.
    + unfold Unguarded.fetch, settle. rewrite Hget. cbv zeta.
      now rewrite Hparse.
    + apply prefix_append.
  - intros Hf Hr ->.
    exists (Error ("Failed to parse registry JSON: " ++ msg)). split.
    + unfold Guarded.fetch, Guarded.fetch_https, settle.
      rewrite Hf, Hr, Hget. cbn [Z.eqb Pos.eqb negb]. cbv zeta.
      now rewrite Hparse.
    + apply prefix_append.
Qed.

(** C4 (behaviour of [src/unnamed/part_000] over native [fetch]): on a
    response with a success status whose body is not well-formed JSON the
    promise is rejected, and the state is as it was, but not with a
    ParseError: the [catch] around the whole branch wraps the parser's
    error as [Failed to fetch registry: ...], the very rejection that a
    connection failure with the same message gets. *)
Theorem C4_native_fetch_relabels_parse_failure (P : platform)
        (url : option string) (h : heap) (status : Z) (chunks : list string)
        (msg : string) :
  has_fetch P = true ->
  http_get P (url_or_default url) = HttpResponse status chunks ->
  response_ok status = true ->
  JSON_parse P (whole_text P chunks) = ParseFailure msg ->
  Guarded.fetch P url h
    = (Normal (Rejected (Error ("Failed to fetch registry: " ++ msg))), h) /\
  ~ rejects_with_ParseError Guarded.fetch P url h /\
  (forall P',
     has_fetch P' = true ->
     http_get P' (url_or_default url) = ConnectionError msg ->
     Guarded.fetch P' url h = Guarded.fetch P url h).
Proof.
  intros Hf Hget Hok Hparse.
  assert (Hg : Guarded.fetch P url h
    = (Normal (Rejected (Error ("Failed to fetch registry: " ++ msg))), h)).
  { unfold Guarded.fetch, settle, Guarded.fetch_native, try_catch.
    now rewrite Hf, Hget, Hok, Hparse. }
  split; [exact Hg | split].
  - intros (e & He & Hp). rewrite Hg in He. inversion He; subst e.
    unfold is_ParseError, Error in Hp. cbn in Hp. discriminate Hp.
  - intros P' Hf' Hget'. rewrite Hg.
    unfold Guarded.fetch, settle, Guarded.fetch_native, try_catch.
    now rewrite Hf', Hget'.
Qed.

Lemma C4_native_fetch_relabels_parse_failure_witness :
  Guarded.fetch (with_native_fetch (server 200 "<html" ">")) None sample_heap
    = (Normal (Rejected (Error "Failed to fetch registry: Unexpected token")),
       sample_heap) /\
  ~ rejects_with_ParseError Guarded.fetch
      (with_native_fetch (server 200 "<html" ">")) None sample_heap.
Proof.
  destruct (C4_native_fetch_relabels_parse_failure
              (with_native_fetch (server 200 "<html" ">")) None sample_heap
              200 ["<html"; ">"] "Unexpected token"
              eq_refl eq_refl eq_refl eq_refl) as (Hg & Hn & _).
  split; [exact Hg | exact Hn].
Defined.

(** The same response over [https], in either edition, is a ParseError. *)
Example https_reports_parse_failure :
  Unguarded.fetch (node_https (server 200 "<html" ">")) None sample_heap
    = (Normal (Rejected
         (Error "Failed to parse registry JSON: Unexpected token")),
       sample_heap) /\
  Guarded.fetch (node_https (server 200 "<html" ">")) None sample_heap
    = (Normal (Rejected
         (Error "Failed to parse registry JSON: Unexpected token")),
       sample_heap).
Proof. split; reflexivity. Qed.

(** A body that parses to a falsy value ([null], [0], [false], the empty
    string) is not kept as the document: the constructor falls back to the
    local registry. *)
Example fetch_null_body :
  exists h',
    Guarded.fetch (node_https (server 200 "nu" "ll")) None
                  (Heap sample_document [] [])
      = (Normal (Resolved 0), h')
    /\ loaded h' 0 sample_document.
Proof. eexists. split; vm_compute; reflexivity. Qed.

(** A character whose bytes arrive in two chunks: over [https] each chunk
    is turned into text on its own and the character is lost; the body
    decoded as a whole keeps it. *)
Example split_character :
  https_text (node_https (server 200 e_acute_byte1 e_acute_byte2))
             [e_acute_byte1; e_acute_byte2]
    = replacement_character ++ replacement_character /\
  whole_text (node_https (server 200 e_acute_byte1 e_acute_byte2))
             [e_acute_byte1; e_acute_byte2]
    = e_acute_byte1 ++ e_acute_byte2.
Proof. split; reflexivity. Qed.

(** A response that is cut before its end: over [https] the promise stays
    pending in both editions (behind the status test in
    [src/unnamed/part_000]); over native [fetch] it is rejected. *)
Lemma fetch_aborted_response (P : platform) (url : option string)
      (h : heap) (chunks : list string) (msg : string) :
  http_get P (url_or_default url) = HttpAborted 200 chunks msg ->
  Unguarded.fetch P url h = (Normal Pending, h) /\
  (has_fetch P = false -> has_require P = true ->
   Guarded.fetch P url h = (Normal Pending, h)) /\
  (has_fetch P = true ->
   Guarded.fetch P url h
     = (Normal (Rejected (Error ("Failed to fetch registry: " ++ msg))), h)).
Proof.
  intros Hget. split; [| split].
  - unfold Unguarded.fetch. now rewrite Hget.
  - intros Hf Hr. unfold Guarded.fetch, Guarded.fetch_https.
    now rewrite Hf, Hr, Hget.
  - intros Hf. unfold Guarded.fetch, settle, Guarded.fetch_native, try_catch.
    now rewrite Hf, Hget.
Qed.

(* ================================================================== *)
(** ** The accessors on arbitrary documents *)

Lemma truthy_not_nullish (v : value) : truthy v = true -> nullish v = false.
Proof. destruct v; cbn; congruence. Qed.

Lemma get_prop_total (v : value) (k : string) :
  nullish v = false -> exists x, get_prop v k = Normal x.
Proof. destruct v; cbn; try discriminate; eauto. Qed.

Lemma get_prop_nullish (v : value) (k : string) :
  nullish v = true ->
  exists msg, get_prop v k = Throw (Exn TypeErrorC msg).
Proof. destruct v; cbn; try discriminate; eauto. Qed.

(** [getProviders] of [src/unnamed/part_000] returns normally on every
    handle, whatever its [registry] holds, and what it returns is truthy;
    [getProviders] of [src/index.js] throws exactly when [registry] is
    [undefined] or [null], and then it is a TypeError. *)
Theorem getProviders_throws_iff (h : heap) (this : ref) :
  (exists v, Guarded.getProviders this h = (Normal v, h) /\ truthy v = true) /\
  ((exists e, Unguarded.getProviders this h = (Throw e, h))
   <-> nullish (nth this (instances h) VUndefined) = true) /\
  (forall e, Unguarded.getProviders this h = (Throw e, h) ->
             is_TypeError e = true).
Proof.
  unfold Guarded.getProviders, Unguarded.getProviders, bind, this_registry,
    prop, lift, ret.
  set (r := nth this (instances h) VUndefined).
  split; [| split].
  - destruct (truthy r) eqn:Hr.
    + destruct (get_prop_total r "providers" (truthy_not_nullish r Hr))
        as [x Hx].
      rewrite Hx. destruct (truthy x) eqn:Hxt.
      * fold r. rewrite Hx. eauto.
      * eauto.
    + rewrite Hr. eauto.
  - split.
    + intros [e He]. destruct (nullish r) eqn:Hn; [reflexivity |].
      destruct (get_prop_total r "providers" Hn) as [x Hx].
      rewrite Hx in He. discriminate He.
    + intros Hn. destruct (get_prop_nullish r "providers" Hn) as [msg Hm].
      rewrite Hm. eauto.
  - intros e He. destruct (nullish r) eqn:Hn.
    + destruct (get_prop_nullish r "providers" Hn) as [msg Hm].
      rewrite Hm in He. now inversion He.
    + destruct (get_prop_total r "providers" Hn) as [x Hx].
      rewrite Hx in He. discriminate He.
Qed.

Lemma getProviders_throws_iff_witness :
  (exists e, Unguarded.getProviders 2 sample_heap = (Throw e, sample_heap)) /\
  ~ (exists e, Unguarded.getProviders 0 sample_heap = (Throw e, sample_heap)).
Proof.
  split.
  - exact (proj2 (proj1 (proj2 (getProviders_throws_iff sample_heap 2)))
             eq_refl).
  - intros He.
    pose proof (proj1 (proj1 (proj2 (getProviders_throws_iff sample_heap 0)))
                  He) as Hn.
    discriminate Hn.
Defined.

(** When the document is there but its [providers] is not an array (the
    field is missing, misspelt, or holds something else), the three id-keyed
    accessors of both editions throw a TypeError -- not the provider-not-found
    error -- for every id; the guard of [src/unnamed/part_000] tests only
    [this.registry]. *)
Theorem accessors_without_provider_array (h : heap) (this : ref)
        (r ps : value) (providerId : string) :
  loaded h this r ->
  truthy r = true ->
  get_prop r "providers" = Normal ps ->
  is_array ps = false ->
  exists e,
    is_TypeError e = true /\
    (Unguarded.getProviderModels this providerId h = (Throw e, h) /\
     Unguarded.getProviderWebsite this providerId h = (Throw e, h) /\
     Unguarded.getProviderAuth this providerId h = (Throw e, h)) /\
    (Guarded.getProviderModels this providerId h = (Throw e, h) /\
     Guarded.getProviderWebsite this providerId h = (Throw e, h) /\
     Guarded.getProviderAuth this providerId h = (Throw e, h)).
Proof.
  intros Hl Hr Hps Harr.
  unfold Unguarded.getProviderModels, Unguarded.getProviderWebsite,
    Unguarded.getProviderAuth, Guarded.getProviderModels,
    Guarded.getProviderWebsite, Guarded.getProviderAuth, bind.
  rewrite !(this_registry_loaded _ _ _ Hl), Hr. cbn [negb].
  rewrite !(this_registry_loaded _ _ _ Hl).
  unfold prop, lift. rewrite Hps.
  assert (Hm : exists msg,
             array_find ps (id_matches providerId) h
               = (Throw (Exn TypeErrorC msg), h)).
  { destruct ps; try discriminate Harr; cbn [array_find]; unfold throw; eauto. }
  destruct Hm as [msg Hm]. rewrite Hm.
  exists (Exn TypeErrorC msg). split; [reflexivity | repeat split].
Qed.

Lemma accessors_without_provider_array_witness :
  exists e,
    is_TypeError e = true /\
    Guarded.getProviderModels 0 "openai" (Heap VNull [VObj []] [])
      = (Throw e, Heap VNull [VObj []] []).
Proof.
  destruct (accessors_without_provider_array (Heap VNull [VObj []] []) 0
              (VObj []) VUndefined "openai" eq_refl eq_refl eq_refl eq_refl)
    as (e & He & _ & Hg & _).
  exists e. split; [exact He | exact Hg].
Defined.

Lemma guard_passes {A} (this : ref) (k : M A) (d : A) (h : heap) :
  truthy (nth this (instances h) VUndefined) = true ->
  (g <- this_registry this ;; if negb (truthy g) then ret d else k) h = k h.
Proof.
  intros Hr. unfold bind, this_registry. now rewrite Hr.
Qed.

Lemma editions_agree_aux (h : heap) (this : ref) (providerId : string) :
  truthy (nth this (instances h) VUndefined) = true ->
  Guarded.getProviderModels this providerId h
    = Unguarded.getProviderModels this providerId h /\
  Guarded.getProviderAuth this providerId h
    = Unguarded.getProviderAuth this providerId h.
Proof.
  intros Hr. split; now apply guard_passes.
Qed.

(** With a document in place the guard changes nothing: on a handle whose
    [registry] is truthy the id-keyed accessors of the two editions are the
    same function of the program state, for every document shape and every
    id. *)
Theorem editions_agree_on_documents (h : heap) (this : ref)
        (providerId : string) :
  truthy (nth this (instances h) VUndefined) = true ->
  Guarded.getProviderModels this providerId h
    = Unguarded.getProviderModels this providerId h /\
  Guarded.getProviderWebsite this providerId h
    = Unguarded.getProviderWebsite this providerId h /\
  Guarded.getProviderAuth this providerId h
    = Unguarded.getProviderAuth this providerId h.
Proof.
  intros Hr. repeat split; now apply guard_passes.
Qed.

Lemma editions_agree_on_documents_witness :
  Guarded.getProviderAuth 1 "acme" sample_heap
    = Unguarded.getProviderAuth 1 "acme" sample_heap.
Proof.
  exact (proj2 (proj2 (editions_agree_on_documents sample_heap 1 "acme"
                         eq_refl))).
Defined.

Lemma bind_Normal_inv {A B} (m : M A) (k : A -> M B) (h h' : heap) (b : B) :
  bind m k h = (Normal b, h') ->
  exists a h1, m h = (Normal a, h1) /\ k a h1 = (Normal b, h').
Proof.
  unfold bind. destruct (m h) as [[a | e] h1]; [eauto | discriminate].
Qed.

Lemma id_matches_true_inv (providerId : string) (p r : value) (h h' : heap) :
  id_matches providerId p h = (Normal r, h') ->
  truthy r = true ->
  provider_id p = Some providerId /\ h' = h.
Proof.
  unfold id_matches, bind, prop, lift, ret, provider_id.
  destruct p as [| | b | n | s | l | props]; cbn [get_prop field];
    try discriminate;
    try (intros H; inversion H; subst; cbn; discriminate).
  intros H. inversion H; subst. clear H.
  destruct (assoc "id" props) as [[| | b | n | s | l | o] |];
    cbn [strict_eq_string truthy]; try discriminate.
  intros Heq. apply String.eqb_eq in Heq. now subst.
Qed.

(** Whatever the array holds, an entry that the scan returns is an entry of
    the array whose [id] is the requested string. *)
Lemma find_sound (providerId : string) (l : list value) (p : value)
      (h h' : heap) :
  find (id_matches providerId) l h = (Normal p, h') ->
  truthy p = true ->
  In p l /\ provider_id p = Some providerId /\ h' = h.
Proof.
  revert h. induction l as [| q rest IH]; intros h Hf Hp.
  - cbn [find] in Hf. inversion Hf; subst. discriminate Hp.
  - cbn [find] in Hf.
    destruct (bind_Normal_inv _ _ _ _ _ Hf) as (r & h1 & Hcb & Hk).
    destruct (truthy r) eqn:Hr.
    + destruct (id_matches_true_inv _ _ _ _ _ Hcb Hr) as [Hid ->].
      inversion Hk; subst. auto using in_eq.
    + assert (h1 = h) as ->.
      { pose proof (preserves_id_matches providerId q h) as Hpres.
        rewrite Hcb in Hpres. exact Hpres. }
      destruct (IH h Hk Hp) as (Hin & Hid & ->). auto using in_cons.
Qed.

Lemma lookup_prefix_inv {A} (K : value -> M A) (e : exn) (this : ref)
      (providerId : string) (h h' : heap) (a : A) :
  (r <- this_registry this ;;
   ps <- prop r "providers" ;;
   provider <- array_find ps (id_matches providerId) ;;
   if negb (truthy provider) then throw e else K provider) h = (Normal a, h') ->
  exists ps p,
    get_prop (nth this (instances h) VUndefined) "providers"
      = Normal (VArr ps) /\
    find (id_matches providerId) ps h = (Normal p, h) /\
    In p ps /\ provider_id p = Some providerId /\
    K p h = (Normal a, h').
Proof.
  intros H.
  destruct (bind_Normal_inv _ _ _ _ _ H) as (r & h1 & Hr & H1).
  unfold this_registry in Hr. inversion Hr; subst r h1. clear Hr H.
  destruct (bind_Normal_inv _ _ _ _ _ H1) as (ps & h2 & Hps & H2).
  unfold prop, lift in Hps. inversion Hps as [[Hg Hh]]. subst h2. clear H1.
  destruct (bind_Normal_inv _ _ _ _ _ H2) as (p & h3 & Hfind & H3).
  destruct (truthy p) eqn:Hp; cbn [negb] in H3; [| discriminate H3].
  destruct ps as [| | b | n | s | l | props]; cbn [array_find] in Hfind;
    try discriminate Hfind.
  destruct (find_sound _ _ _ _ _ Hfind Hp) as (Hin & Hid & ->).
  exists l, p. auto.
Qed.

(** The lookup is sound on every document, well-formed or not: when an
    id-keyed accessor of [src/index.js] returns, the state is unchanged, the
    document's [providers] is an array, and one of its entries is an object
    whose [id] is exactly the requested string; [getProviderWebsite] then
    answers the [website] of that entry as stored ([undefined] when it has
    none). *)
Theorem lookup_sound (h h' : heap) (this : ref) (providerId : string)
        (v : value) :
  Unguarded.getProviderModels this providerId h = (Normal v, h') \/
  Unguarded.getProviderWebsite this providerId h = (Normal v, h') \/
  Unguarded.getProviderAuth this providerId h = (Normal v, h') ->
  exists ps p,
    get_prop (nth this (instances h) VUndefined) "providers"
      = Normal (VArr ps) /\
    In p ps /\ provider_id p = Some providerId /\ h' = h /\
    Unguarded.getProviderWebsite this providerId h
      = (Normal (website_of p), h).
Proof.
  intros H.
  assert (Hex : exists ps p,
    get_prop (nth this (instances h) VUndefined) "providers"
      = Normal (VArr ps) /\
    find (id_matches providerId) ps h = (Normal p, h) /\
    In p ps /\ provider_id p = Some providerId /\ h' = h).
  { destruct H as [H | [H | H]];
      [unfold Unguarded.getProviderModels in H
      | unfold Unguarded.getProviderWebsite in H
      | unfold Unguarded.getProviderAuth in H];
      destruct (lookup_prefix_inv _ _ _ _ _ _ _ H)
        as (ps & p & Hps & Hf & Hin & Hid & HK);
      exists ps, p; repeat split; auto.
    - pose proof (preserves_invoke unguarded this
                    (CallGetProviderModels providerId) (or_introl eq_refl) h)
        as Hpr.
      cbn [invoke unguarded acc_getProviderModels] in Hpr.
      unfold Unguarded.getProviderModels in Hpr. rewrite H in Hpr.
      exact Hpr.
    - pose proof (preserves_invoke unguarded this
                    (CallGetProviderWebsite providerId) (or_introl eq_refl) h)
        as Hpr.
      cbn [invoke unguarded acc_getProviderWebsite] in Hpr.
      unfold Unguarded.getProviderWebsite in Hpr. rewrite H in Hpr.
      exact Hpr.
    - pose proof (preserves_invoke unguarded this
                    (CallGetProviderAuth providerId) (or_introl eq_refl) h)
        as Hpr.
      cbn [invoke unguarded acc_getProviderAuth] in Hpr.
      unfold Unguarded.getProviderAuth in Hpr. rewrite H in Hpr.
      exact Hpr. }
  destruct Hex as (ps & p & Hps & Hf & Hin & Hid & ->).
  exists ps, p. repeat split; auto.
  unfold Unguarded.getProviderWebsite, bind, this_registry, prop, lift.
  rewrite Hps. cbn [array_find]. rewrite Hf.
  unfold provider_id in Hid. unfold website_of.
  destruct p as [| | b | n | s | l' | props]; cbn [field] in *;
    try discriminate Hid.
  reflexivity.
Qed.

Lemma lookup_sound_witness :
  exists ps p,
    get_prop duplicated_document "providers" = Normal (VArr ps) /\
    In p ps /\ provider_id p = Some "openai" /\
    Unguarded.getProviderWebsite 1 "openai" sample_heap
      = (Normal (website_of p), sample_heap).
Proof.
  destruct (lookup_sound sample_heap sample_heap 1 "openai"
              (VArr [gpt4]) (or_introl eq_refl))
    as (ps & p & Hps & Hin & Hid & _ & Hw).
  exists ps, p. repeat split; assumption.
Defined.

Lemma models_tail_truthy (provider v : value) (e : exn) (h h' : heap) :
  (if negb (truthy provider) then throw e
   else m <- prop provider "models" ;;
        if truthy m then ret m else ret (VArr [])) h = (Normal v, h') ->
  truthy v = true.
Proof.
  destruct (truthy provider); cbn [negb]; [| discriminate].
  intros H. destruct (bind_Normal_inv _ _ _ _ _ H) as (m & h1 & _ & Hk).
  destruct (truthy m) eqn:Hm; inversion Hk; subst; auto.
Qed.

Lemma auth_tail_null_or_truthy (provider v : value) (e : exn) (h h' : heap) :
  (if negb (truthy provider) then throw e
   else cfg <- prop provider "api_config" ;;
        a <- (if truthy cfg then prop cfg "auth" else ret cfg) ;;
        if truthy a then (cfg' <- prop provider "api_config" ;; prop cfg' "auth")
        else ret VNull) h = (Normal v, h') ->
  v = VNull \/ truthy v = true.
Proof.
  destruct (truthy provider); cbn [negb]; [| discriminate].
  intros H. destruct (bind_Normal_inv _ _ _ _ _ H) as (cfg & h1 & Hc & H1).
  destruct (bind_Normal_inv _ _ _ _ _ H1) as (a & h2 & Ha & H2).
  destruct (truthy a) eqn:Hat; [| inversion H2; auto].
  right.
  destruct (bind_Normal_inv _ _ _ _ _ H2) as (cfg' & h3 & Hc' & H3).
  unfold prop, lift in Hc, Hc', Ha, H3.
  inversion Hc as [[Hc1 Hc2]]. inversion Hc' as [[Hc3 Hc4]].
  assert (cfg' = cfg) as -> by congruence.
  destruct (truthy cfg) eqn:Hct.
  - inversion Ha as [[Ha1 Ha2]]. inversion H3 as [[H31 H32]]. congruence.
  - unfold ret in Ha. inversion Ha; subst. congruence.
Qed.

(** What the accessors hand back, on every document and for every id: a
    result of [getProviderModels] is never [null], [undefined] or another
    falsy value, and a result of [getProviderAuth] is [null] or truthy, never
    [undefined]. *)
Theorem results_are_normalised (h h' : heap) (this : ref)
        (providerId : string) (v : value) :
  (Unguarded.getProviderModels this providerId h = (Normal v, h') ->
   truthy v = true) /\
  (Guarded.getProviderModels this providerId h = (Normal v, h') ->
   truthy v = true) /\
  (Unguarded.getProviderAuth this providerId h = (Normal v, h') ->
   v = VNull \/ truthy v = true) /\
  (Guarded.getProviderAuth this providerId h = (Normal v, h') ->
   v = VNull \/ truthy v = true).
Proof.
  assert (Um : Unguarded.getProviderModels this providerId h = (Normal v, h') ->
               truthy v = true).
  { unfold Unguarded.getProviderModels. intros H.
    destruct (bind_Normal_inv _ _ _ _ _ H) as (r & h1 & _ & H1).
    destruct (bind_Normal_inv _ _ _ _ _ H1) as (ps & h2 & _ & H2).
    destruct (bind_Normal_inv _ _ _ _ _ H2) as (p & h3 & _ & H3).
    exact (models_tail_truthy _ _ _ _ _ H3). }
  assert (Ua : Unguarded.getProviderAuth this providerId h = (Normal v, h') ->
               v = VNull \/ truthy v = true).
  { unfold Unguarded.getProviderAuth. intros H.
    destruct (bind_Normal_inv _ _ _ _ _ H) as (r & h1 & _ & H1).
    destruct (bind_Normal_inv _ _ _ _ _ H1) as (ps & h2 & _ & H2).
    destruct (bind_Normal_inv _ _ _ _ _ H2) as (p & h3 & _ & H3).
    exact (auth_tail_null_or_truthy _ _ _ _ _ H3). }
  split; [exact Um | split; [| split; [exact Ua |]]].
  - destruct (truthy (nth this (instances h) VUndefined)) eqn:Hr.
    + rewrite (proj1 (editions_agree_aux h this providerId Hr)). exact Um.
    + unfold Guarded.getProviderModels, bind, this_registry. rewrite Hr.
      cbn [negb ret]. intros H. now inversion H.
  - destruct (truthy (nth this (instances h) VUndefined)) eqn:Hr.
    + rewrite (proj2 (editions_agree_aux h this providerId Hr)). exact Ua.
    + unfold Guarded.getProviderAuth, bind, this_registry. rewrite Hr.
      cbn [negb ret]. intros H. inversion H. now left.
Qed.

Lemma results_are_normalised_witness :
  truthy (VArr []) = true /\ (VNull = VNull \/ truthy VNull = true).
Proof.
  split.
  - exact (proj1 (proj2 (results_are_normalised sample_heap sample_heap 0
                           "acme" (VArr []))) eq_refl).
  - exact (proj1 (proj2 (proj2 (results_are_normalised sample_heap sample_heap
                                  0 "openai" VNull))) eq_refl).
Defined.

Lemma find_nullish_entry (providerId : string) (before after : list value)
      (q : value) (h : heap) :
  forallb is_Provider before = true ->
  (forall p, In p before -> provider_id p <> Some providerId) ->
  nullish q = true ->
  exists msg,
    find (id_matches providerId) (before ++ q :: after)%list h
      = (Throw (Exn TypeErrorC msg), h).
Proof.
  induction before as [| p rest IH]; intros Hwf Hno Hq.
  - cbn [app find]. unfold bind at 1, id_matches, bind, prop, lift.
    destruct (get_prop_nullish q "id" Hq) as [msg Hm]. rewrite Hm. eauto.
  - cbn [forallb] in Hwf. apply andb_true_iff in Hwf as [Hp Hrest].
    cbn [app find]. unfold bind at 1. rewrite (id_matches_Provider _ _ _ Hp).
    destruct (match provider_id p with
              | Some s => String.eqb s providerId
              | None => false
              end) eqn:E.
    + apply provider_id_eqb in E. exfalso. apply (Hno p); [now left | exact E].
    + cbn [truthy]. apply IH; auto. intros r Hin. apply Hno. now right.
Qed.

(** A [null] entry in [providers] breaks the lookup of every id that is not
    found before it: the scan reads [id] of [null] and the three id-keyed
    accessors of both editions throw a TypeError -- also for an id that a
    later entry carries. *)
Theorem null_entry_breaks_lookup (h : heap) (this : ref) (r q : value)
        (before after : list value) (providerId : string) :
  loaded h this r ->
  get_prop r "providers" = Normal (VArr (before ++ q :: after)%list) ->
  forallb is_Provider before = true ->
  (forall p, In p before -> provider_id p <> Some providerId) ->
  nullish q = true ->
  exists e,
    is_TypeError e = true /\
    (Unguarded.getProviderModels this providerId h = (Throw e, h) /\
     Unguarded.getProviderWebsite this providerId h = (Throw e, h) /\
     Unguarded.getProviderAuth this providerId h = (Throw e, h)) /\
    (Guarded.getProviderModels this providerId h = (Throw e, h) /\
     Guarded.getProviderWebsite this providerId h = (Throw e, h) /\
     Guarded.getProviderAuth this providerId h = (Throw e, h)).
Proof.
  intros Hl Hps Hwf Hno Hq.
  assert (Hr : truthy r = true).
  { destruct r; cbn [get_prop] in Hps; try discriminate Hps; reflexivity. }
  destruct (find_nullish_entry providerId before after q h Hwf Hno Hq)
    as [msg Hf].
  unfold Unguarded.getProviderModels, Unguarded.getProviderWebsite,
    Unguarded.getProviderAuth, Guarded.getProviderModels,
    Guarded.getProviderWebsite, Guarded.getProviderAuth, bind.
  rewrite !(this_registry_loaded _ _ _ Hl), Hr. cbn [negb].
  rewrite !(this_registry_loaded _ _ _ Hl).
  unfold prop, lift. rewrite Hps. cbn [array_find]. rewrite Hf.
  exists (Exn TypeErrorC msg). split; [reflexivity | repeat split].
Qed.

Lemma null_entry_breaks_lookup_witness :
  exists e,
    is_TypeError e = true /\
    Guarded.getProviderWebsite 0 "openai"
      (Heap VNull [VObj [("providers", VArr [acme; VNull; openai])]] [])
    = (Throw e, Heap VNull [VObj [("providers", VArr [acme; VNull; openai])]] []).
Proof.
  assert (Hno : forall p, In p [acme] -> provider_id p <> Some "openai").
  { intros p [<- | []]. vm_compute. discriminate. }
  destruct (null_entry_breaks_lookup
              (Heap VNull [VObj [("providers", VArr [acme; VNull; openai])]] [])
              0 (VObj [("providers", VArr [acme; VNull; openai])]) VNull
              [acme] [openai] "openai" eq_refl eq_refl eq_refl Hno eq_refl)
    as (e & He & _ & _ & Hw & _).
  exists e. split; [exact He | exact Hw].
Defined.

(* ================================================================== *)
(** ** Fetching, then querying *)

(** Both editions on a complete 200 response whose text parses: the promise
    resolves with the handle the constructor builds from the parsed value.
    The text is the one the transport in use produces. *)
Lemma fetch_200_parsed (P : platform) (url : option string) (h : heap)
      (chunks : list string) (json : value) :
  http_get P (url_or_default url) = HttpResponse 200 chunks ->
  (JSON_parse P (https_text P chunks) = Parsed json ->
   Unguarded.fetch P url h = settle (Unguarded.constructor json) h) /\
  (has_fetch P = true \/ has_require P = true ->
   JSON_parse P (guarded_text P chunks) = Parsed json ->
   Guarded.fetch P url h = settle (Unguarded.constructor json) h).
Proof.
  intros Hget. split.
  - intros Hparse. unfold Unguarded.fetch. rewrite Hget. cbv zeta.
    now rewrite Hparse.
  - intros Henv Hparse.
    unfold Guarded.fetch, Guarded.fetch_native, Guarded.fetch_https,
      try_catch, guarded_text in *.
    rewrite Hget.
    destruct (constructor_eval json h) as [Hu Hg]. cbv zeta in Hu.
    destruct (has_fetch P).
    + unfold settle.
      cbn [response_ok Z.leb Z.compare Pos.compare Pos.compare_cont andb negb].
      now rewrite Hparse, Hg, Hu.
    + destruct Henv as [Hf | Hr]; [discriminate |]. rewrite Hr.
      unfold settle. cbn [Z.eqb Pos.eqb negb]. cbv zeta.
      now rewrite Hparse, Hg, Hu.
Qed.

Lemma resolves_with_document_intro
      (fetch : platform -> option string -> M settled)
      (getProviders : ref -> M value) (P : platform) (url : option string)
      (h : heap) (doc : value) :
  fetch P url h = settle (Unguarded.constructor doc) h ->
  is_RegistryDocument doc = true ->
  (forall h' this, loaded h' this doc ->
     getProviders this h' = (Normal (VArr (providers_of doc)), h')) ->
  resolves_with_document fetch getProviders P url h doc.
Proof.
  intros Hfetch Hwf Hget. unfold resolves_with_document.
  rewrite Hfetch. unfold settle.
  destruct (constructor_eval doc h) as [Hc _]. cbv zeta in Hc.
  pose proof (RegistryDocument_truthy doc Hwf) as Ht.
  rewrite Ht in Hc. cbv iota in Hc. rewrite Ht in Hc. rewrite Hc.
  eexists. split; [reflexivity |].
  cbn [console localRegistry].
  split; [reflexivity |]. split; [reflexivity |]. split.
  - intros other d Hl. now apply loaded_app.
  - apply Hget. apply loaded_fresh.
Qed.

(** A successful fetch, end to end: on a complete 200 response whose text
    -- as the transport in use decodes it -- parses to a registry document,
    the promise resolves with a fresh handle; nothing is written to the
    console, the local registry and the documents of the handles built
    before are as they were, and [getProviders] on the new handle returns
    the providers of that document.  [src/index.js] always reads the text
    chunk by chunk; [src/unnamed/part_000] does so over [https] and reads
    the body as a whole over native [fetch]. *)
Theorem fetch_then_getProviders (P : platform) (url : option string)
        (h : heap) (chunks : list string) (doc : value) :
  http_get P (url_or_default url) = HttpResponse 200 chunks ->
  is_RegistryDocument doc = true ->
  (JSON_parse P (https_text P chunks) = Parsed doc ->
   resolves_with_document Unguarded.fetch Unguarded.getProviders P url h doc)
  /\
  (has_fetch P = true \/ has_require P = true ->
   JSON_parse P (guarded_text P chunks) = Parsed doc ->
   resolves_with_document Guarded.fetch Guarded.getProviders P url h doc).
Proof.
  intros Hget Hwf.
  destruct (fetch_200_parsed P url h chunks doc Hget) as [Hu Hg].
  split.
  - intros Hparse.
    apply resolves_with_document_intro; [now apply Hu | exact Hwf |].
    intros h' this Hl. now apply (getProviders_loaded h' this doc).
  - intros Henv Hparse.
    apply resolves_with_document_intro; [now apply Hg | exact Hwf |].
    intros h' this Hl. now apply (getProviders_loaded h' this doc).
Qed.

Lemma fetch_then_getProviders_witness :
  resolves_with_document Unguarded.fetch Unguarded.getProviders
    (Platform registry_parse sample_decode sample_stream_decode
                      sample_decode
       (server 200 empty_registry_part1 empty_registry_part2) true true)
    None sample_heap empty_registry /\
  resolves_with_document Guarded.fetch Guarded.getProviders
    (Platform registry_parse sample_decode sample_stream_decode
                      sample_decode
       (server 200 empty_registry_part1 empty_registry_part2) true true)
    None sample_heap empty_registry.
Proof.
  destruct (fetch_then_getProviders
              (Platform registry_parse sample_decode sample_stream_decode
                      sample_decode
                 (server 200 empty_registry_part1 empty_registry_part2)
                 true true)
              None sample_heap [empty_registry_part1; empty_registry_part2]
              empty_registry eq_refl eq_refl) as [Hu Hg].
  split; [exact (Hu eq_refl) | exact (Hg (or_introl eq_refl) eq_refl)].
Defined.

(** A body that parses to a falsy value -- [null], [false], [0], the empty
    string -- is not kept: both editions still resolve, but the handle holds
    the local registry instead of what was fetched, and when that is falsy
    too the handle is documentless and the constructor's warning is
    written.  The state that results is the same in both editions. *)
Theorem fetch_falsy_body_falls_back (P : platform) (url : option string)
        (h : heap) (chunks : list string) (json json' : value) :
  http_get P (url_or_default url) = HttpResponse 200 chunks ->
  JSON_parse P (https_text P chunks) = Parsed json ->
  truthy json = false ->
  JSON_parse P (guarded_text P chunks) = Parsed json' ->
  truthy json' = false ->
  has_fetch P = true \/ has_require P = true ->
  exists h',
    Unguarded.fetch P url h
      = (Normal (Resolved (List.length (instances h))), h') /\
    Guarded.fetch P url h
      = (Normal (Resolved (List.length (instances h))), h') /\
    loaded h' (List.length (instances h)) (localRegistry h) /\
    (truthy (localRegistry h) = true -> console h' = console h) /\
    (truthy (localRegistry h) = false ->
     console h' = (console h ++ [no_registry_warning])%list).
Proof.
  intros Hget Hparse Hj Hparse' Hj' Henv.
  destruct (fetch_200_parsed P url h chunks json Hget) as [Hu _].
  destruct (fetch_200_parsed P url h chunks json' Hget) as [_ Hg].
  rewrite (Hu Hparse), (Hg Henv Hparse'). unfold settle.
  destruct (constructor_eval json h) as [Hc _]. cbv zeta in Hc.
  destruct (constructor_eval json' h) as [Hc' _]. cbv zeta in Hc'.
  rewrite Hj in Hc. rewrite Hj' in Hc'. rewrite Hc, Hc'.
  eexists. split; [reflexivity |]. split; [reflexivity |].
  cbn [console]. split; [apply loaded_fresh |].
  split; intros Hloc; now rewrite Hloc.
Qed.

Lemma fetch_falsy_body_falls_back_witness :
  exists h',
    Unguarded.fetch (node_https (server 200 "nu" "ll")) None
                    (Heap sample_document [] [])
      = (Normal (Resolved 0), h') /\
    loaded h' 0 sample_document /\ console h' = [].
Proof.
  destruct (fetch_falsy_body_falls_back
              (node_https (server 200 "nu" "ll")) None
              (Heap sample_document [] []) ["nu"; "ll"] VNull VNull
              eq_refl eq_refl eq_refl eq_refl eq_refl (or_intror eq_refl))
    as (h' & Hu & _ & Hl & Hc & _).
  exists h'. split; [exact Hu |]. split; [exact Hl | exact (Hc eq_refl)].
Defined.

Lemma Guarded_fetch_resolves_iff_aux (P : platform) (url : option string)
      (h : heap) :
  (exists status chunks json,
     http_get P (url_or_default url) = HttpResponse status chunks /\
     JSON_parse P (whole_text P chunks) = Parsed json /\
     has_fetch P = true /\ response_ok status = true) ->
  exists sdk h', Guarded.fetch P url h = (Normal (Resolved sdk), h').
Proof.
  intros (status & chunks & json & Hg & Hp & Hf & Hok).
  unfold Guarded.fetch, settle, Guarded.fetch_native, try_catch.
  rewrite Hf, Hg, Hok, Hp. cbn [negb].
  destruct (constructor_eval json h) as [Hu Hgc]. cbv zeta in Hu.
  rewrite Hgc, Hu. eauto.
Qed.

(** When the promise of [src/unnamed/part_000] resolves, and only then: a
    complete response arrived, its text parses, and its status is
    acceptable to the transport in use -- any 2xx for native [fetch],
    exactly 200 for [https]. *)
Theorem Guarded_fetch_resolves_iff (P : platform) (url : option string)
        (h : heap) :
  (exists sdk h', Guarded.fetch P url h = (Normal (Resolved sdk), h')) <->
  (exists status chunks json,
     http_get P (url_or_default url) = HttpResponse status chunks /\
     JSON_parse P (guarded_text P chunks) = Parsed json /\
     ((has_fetch P = true /\ response_ok status = true) \/
      (has_fetch P = false /\ has_require P = true /\ status = 200%Z))).
Proof.
  unfold Guarded.fetch, settle, Guarded.fetch_native, Guarded.fetch_https,
    try_catch, throw, guarded_text, ret.
  split.
  - intros (sdk & h' & H).
    destruct (has_fetch P); [| destruct (has_require P)].
    + destruct (http_get P (url_or_default url))
        as [msg | status chunks | status chunks msg | msg] eqn:Hg;
        try discriminate.
      * destruct (response_ok status) eqn:Hok; cbn [negb] in H;
          [| discriminate].
        destruct (JSON_parse P (whole_text P chunks)) as [json | msg] eqn:Hp;
          [| discriminate].
        exists status, chunks, json. auto.
      * destruct (response_ok status); discriminate.
    + destruct (http_get P (url_or_default url))
        as [msg | status chunks | status chunks msg | msg] eqn:Hg;
        try discriminate.
      * unfold settle in H.
        destruct (Z.eqb status 200) eqn:Hs; cbn [negb] in H; [| discriminate].
        cbv zeta in H.
        destruct (JSON_parse P (https_text P chunks)) as [json | msg] eqn:Hp;
          [| discriminate].
        apply Z.eqb_eq in Hs. exists status, chunks, json. auto 6.
      * destruct (Z.eqb status 200); discriminate.
    + discriminate.
  - intros (status & chunks & json & Hg & Hp & Hcase).
    rewrite Hg.
    destruct (constructor_eval json h) as [Hu Hgc]. cbv zeta in Hu.
    destruct Hcase as [[Hf Hok] | (Hf & Hr & ->)].
    + rewrite Hf in *. rewrite Hok, Hp. cbn [negb]. rewrite Hgc, Hu. eauto.
    + rewrite Hf in *. rewrite Hr. unfold settle.
      cbn [Z.eqb Pos.eqb negb]. cbv zeta. rewrite Hp, Hgc, Hu. eauto.
Qed.

Lemma Guarded_fetch_resolves_iff_witness :
  (exists sdk h',
     Guarded.fetch (node_https (server 200 "{" "}")) None empty_heap
       = (Normal (Resolved sdk), h')) /\
  ~ (exists sdk h',
       Guarded.fetch (node_https (server 201 "{" "}")) None empty_heap
         = (Normal (Resolved sdk), h')).
Proof.
  split.
  - apply (proj2 (Guarded_fetch_resolves_iff
                    (node_https (server 200 "{" "}")) None empty_heap)).
    exists 200%Z, ["{"; "}"], (VObj []).
    split; [reflexivity |]. split; [reflexivity |]. right.
    split; [reflexivity |]. split; reflexivity.
  - intros H.
    destruct (proj1 (Guarded_fetch_resolves_iff
                       (node_https (server 201 "{" "}")) None empty_heap) H)
      as (status & chunks & json & Hg & _ & [[Hf _] | (_ & _ & Hs)]).
    + discriminate Hf.
    + inversion Hg. subst. discriminate.
Defined.

(** The two transports of [src/unnamed/part_000] disagree on the success
    statuses other than 200: for the same response -- status 201 to 299,
    body that parses -- the promise resolves over native [fetch] and rejects
    with the HTTP status error over [https]. *)
Theorem transports_disagree_on_2xx (parse : string -> parse_result)
        (decode body : string -> string) (stream : list string -> string)
        (net : string -> http_result) (url : option string) (h : heap)
        (status : Z) (chunks : list string) (json : value) :
  net (url_or_default url) = HttpResponse status chunks ->
  parse (body (collect chunks)) = Parsed json ->
  (201 <= status <= 299)%Z ->
  (exists sdk h',
     Guarded.fetch (Platform parse decode stream body net true true) url h
       = (Normal (Resolved sdk), h')) /\
  Guarded.fetch (Platform parse decode stream body net false true) url h
    = (Normal (Rejected
         (Error ("HTTP error! status: " ++ show_number status))), h).
Proof.
  intros Hget Hparse Hs. split.
  - apply Guarded_fetch_resolves_iff_aux.
    cbn [http_get JSON_parse has_fetch].
    exists status, chunks, json. repeat split; auto.
    unfold response_ok. apply andb_true_iff. split; apply Z.leb_le; lia.
  - unfold Guarded.fetch, settle, Guarded.fetch_https.
    cbn [http_get JSON_parse has_fetch has_require]. rewrite Hget.
    assert (Hne : Z.eqb status 200 = false) by (apply Z.eqb_neq; lia).
    now rewrite Hne.
Qed.

Lemma transports_disagree_on_2xx_witness :
  (exists sdk h',
     Guarded.fetch (with_native_fetch (server 201 "{" "}")) None empty_heap
       = (Normal (Resolved sdk), h')) /\
  Guarded.fetch (node_https (server 201 "{" "}")) None empty_heap
    = (Normal (Rejected (Error "HTTP error! status: 201")), empty_heap).
Proof.
  apply (transports_disagree_on_2xx sample_parse sample_decode sample_decode
           sample_stream_decode (server 201 "{" "}") None
           empty_heap 201 ["{"; "}"] (VObj []) eq_refl eq_refl).
  lia.
Defined.

(* ================================================================== *)
(** ** Handles are independent *)

Lemma reads_only_ret (this : ref) {A} (a : A) : reads_only this (ret a).
Proof. now intros h1 h2 _. Qed.

Lemma reads_only_throw (this : ref) {A} (e : exn) :
  reads_only this (@throw A e).
Proof. now intros h1 h2 _. Qed.

Lemma reads_only_prop (this : ref) (v : value) (k : string) :
  reads_only this (prop v k).
Proof. now intros h1 h2 _. Qed.

Lemma reads_only_this_registry (this : ref) :
  reads_only this (this_registry this).
Proof. intros h1 h2 H. cbn. now rewrite H. Qed.

Lemma reads_only_bind (this : ref) {A B} (m : M A) (k : A -> M B) :
  preserves m -> reads_only this m ->
  (forall a, reads_only this (k a)) ->
  reads_only this (bind m k).
Proof.
  intros Hp Hm Hk h1 h2 H. unfold bind.
  pose proof (Hp h1) as P1. pose proof (Hp h2) as P2.
  pose proof (Hm h1 h2 H) as E.
  destruct (m h1) as [c1 g1], (m h2) as [c2 g2]. cbn [fst snd] in *.
  subst g1 g2 c2. destruct c1 as [a | e]; [now apply Hk | reflexivity].
Qed.

Lemma reads_only_id_matches (this : ref) (providerId : string) (p : value) :
  reads_only this (id_matches providerId p).
Proof.
  intros h1 h2 _. unfold id_matches, bind, prop, lift.
  now destruct (get_prop p "id").
Qed.

Lemma reads_only_find (this : ref) (providerId : string) (l : list value) :
  reads_only this (find (id_matches providerId) l).
Proof.
  induction l as [| p rest IH]; cbn [find].
  - apply reads_only_ret.
  - apply reads_only_bind.
    + apply preserves_id_matches.
    + apply reads_only_id_matches.
    + intros r. destruct (truthy r); [apply reads_only_ret | exact IH].
Qed.

Lemma reads_only_array_find (this : ref) (providerId : string) (arr : value) :
  reads_only this (array_find arr (id_matches providerId)).
Proof.
  destruct arr; cbn [array_find]; try apply reads_only_throw.
  apply reads_only_find.
Qed.

Ltac own_document :=
  repeat first
    [ apply reads_only_ret
    | apply reads_only_throw
    | apply reads_only_prop
    | apply reads_only_this_registry
    | apply reads_only_array_find
    | apply reads_only_bind; [read_only | | intro]
    | match goal with
      | |- reads_only _ (if ?b then _ else _) => destruct b
      end ].

Lemma reads_only_invoke (A : accessors) (this : ref) (c : call) :
  A = unguarded \/ A = guarded -> reads_only this (invoke A this c).
Proof.
  intros [-> | ->]; destruct c; cbn [invoke unguarded guarded
    acc_getProviders acc_getProviderModels acc_getProviderWebsite
    acc_getProviderAuth];
    unfold Unguarded.getProviders, Unguarded.getProviderModels,
      Unguarded.getProviderWebsite, Unguarded.getProviderAuth,
      Guarded.getProviders, Guarded.getProviderModels,
      Guarded.getProviderWebsite, Guarded.getProviderAuth;
    own_document.
Qed.

(** Constructing a handle only appends to the handles there are. *)
Lemma constructor_extends (data : value) (h : heap) :
  exists v c,
    snd (Unguarded.constructor data h)
      = Heap (localRegistry h) (instances h ++ [v])%list c.
Proof.
  destruct (constructor_eval data h) as [Hc _]. cbv zeta in Hc.
  rewrite Hc. cbn [snd]. eauto.
Qed.

Lemma fetch_extends (P : platform) (url : option string) (h : heap) :
  (exists more c,
     snd (Unguarded.fetch P url h)
       = Heap (localRegistry h) (instances h ++ more)%list c) /\
  (exists more c,
     snd (Guarded.fetch P url h)
       = Heap (localRegistry h) (instances h ++ more)%list c).
Proof.
  assert (Hsame : forall c0 : completion settled,
            exists more c,
              snd (c0, h) = Heap (localRegistry h) (instances h ++ more)%list c).
  { intros c0. exists [], (console h). cbn [snd]. rewrite app_nil_r.
    now destruct h. }
  assert (Hnew : forall json,
            exists more c,
              snd (settle (Unguarded.constructor json) h)
                = Heap (localRegistry h) (instances h ++ more)%list c).
  { intros json. unfold settle.
    destruct (constructor_eval json h) as [Hc _]. cbv zeta in Hc.
    rewrite Hc. cbn [snd]. eauto. }
  split.
  - unfold Unguarded.fetch.
    destruct (http_get P (url_or_default url))
      as [msg | status chunks | status chunks msg | msg].
    + apply Hsame.
    + cbv zeta. destruct (JSON_parse P (https_text P chunks)) as [json | msg].
      * apply Hnew.
      * apply Hsame.
    + apply Hsame.
    + apply Hsame.
  - unfold Guarded.fetch, Guarded.fetch_native, Guarded.fetch_https.
    cbv zeta.
    destruct (has_fetch P); [| destruct (has_require P)].
    + unfold settle at 1, try_catch.
      destruct (http_get P (url_or_default url))
        as [msg | status chunks | status chunks msg | msg].
      * apply Hsame.
      * destruct (response_ok status); cbn [negb]; [| apply Hsame].
        destruct (JSON_parse P (whole_text P chunks)) as [json | msg];
          [| apply Hsame].
        specialize (Hnew json). unfold settle in Hnew.
        change (Guarded.constructor json h) with (Unguarded.constructor json h).
        destruct (Unguarded.constructor json h) as [[r | e] h'];
          cbn [snd throw] in *; exact Hnew.
      * destruct (response_ok status); cbn [negb]; apply Hsame.
      * apply Hsame.
    + destruct (http_get P (url_or_default url))
        as [msg | status chunks | status chunks msg | msg].
      * apply Hsame.
      * destruct (Z.eqb status 200); cbn [negb]; [| apply Hsame].
        cbv zeta.
        destruct (JSON_parse P (https_text P chunks)) as [json | msg];
          [apply Hnew | apply Hsame].
      * destruct (Z.eqb status 200); cbn [negb]; apply Hsame.
      * apply Hsame.
    + apply Hsame.
Qed.

Lemma nth_app_left (l more : list value) (i : nat) (d : value) :
  i < List.length l -> nth i (l ++ more)%list d = nth i l d.
Proof. intros Hi. now apply app_nth1. Qed.

(** Handles are independent, and [fetch] never refreshes one: whatever a
    call of [fetch] or of the constructor does -- resolve, reject, warn --
    every accessor call on a handle that existed before gives, in the state
    after it, the completion it gives in the state before it.  In
    particular the handle the module exports keeps answering from the
    document it was built with. *)
Theorem existing_handles_answer_as_before (A : accessors) (this : ref)
        (c : call) (h : heap) :
  A = unguarded \/ A = guarded ->
  this < List.length (instances h) ->
  (forall P url,
     fst (invoke A this c (snd (Unguarded.fetch P url h)))
       = fst (invoke A this c h) /\
     fst (invoke A this c (snd (Guarded.fetch P url h)))
       = fst (invoke A this c h)) /\
  (forall data,
     fst (invoke A this c (snd (Unguarded.constructor data h)))
       = fst (invoke A this c h)).
Proof.
  intros HA Hthis. split.
  - intros P url.
    destruct (fetch_extends P url h) as [(m1 & c1 & E1) (m2 & c2 & E2)].
    rewrite E1, E2.
    split; apply (reads_only_invoke A this c HA); cbn [instances];
      now apply nth_app_left.
  - intros data. destruct (constructor_extends data h) as (v & c1 & E).
    rewrite E. apply (reads_only_invoke A this c HA). cbn [instances].
    now apply nth_app_left.
Qed.

Lemma existing_handles_answer_as_before_witness :
  fst (Guarded.getProviderWebsite 0 "openai"
         (snd (Guarded.fetch (with_native_fetch (server 200 "{" "}")) None
                 sample_heap)))
    = Normal (VStr "https://openai.com").
Proof.
  exact (proj2 (proj1 (existing_handles_answer_as_before guarded 0
                         (CallGetProviderWebsite "openai") sample_heap
                         (or_intror eq_refl) (Nat.lt_0_succ 2))
                  (with_native_fetch (server 200 "{" "}")) None)).
Defined.

(* ================================================================== *)
(** ** Module initialisation *)

Lemma load_local_eval (parse : string -> parse_result) (s : machine) :
  load_local parse s =
    (match local_file s with
     | Some f =>
         match read_error f with
         | Some msg => Throw (Exn ErrorC msg)
         | None =>
             match parse (content f) with
             | Parsed json => Normal json
             | ParseFailure msg => Throw (Exn SyntaxErrorC msg)
             end
         end
     | None => Normal VNull
     end, s).
Proof.
  unfold load_local, io_bind, existsSync, readFileSync, json_parse, file_at.
  destruct (local_file s) as [f |] eqn:Hf; [| reflexivity].
  rewrite ?Hf. destruct (read_error f); [reflexivity |].
  now destruct (parse (content f)).
Qed.

(** The edition without root sync: initialisation never throws and leaves
    the files alone; [localRegistry] becomes the registry the local file
    holds; and one warning is written exactly when the file is there but
    broken. *)
Theorem PlainInit_initialise_total (parse : string -> parse_result)
        (s : machine) :
  exists s',
    PlainInit.initialise parse s = (Normal (registry_on_disk parse s), s') /\
    local_file s' = local_file s /\ root_file s' = root_file s /\
    stdout s' = stdout s /\ exit_code s' = exit_code s /\
    (local_file_broken parse s = false -> s' = s) /\
    (local_file_broken parse s = true ->
     exists line, stderr s' = (stderr s ++ [line])%list).
Proof.
  unfold PlainInit.initialise, io_try. rewrite load_local_eval.
  unfold registry_on_disk, local_file_broken.
  destruct (local_file s) as [f |] eqn:Hf.
  - destruct (read_error f) as [msg |] eqn:Hr.
    + eexists. split; [reflexivity |]. cbn. repeat split; auto.
      * discriminate.
      * eauto.
    + destruct (parse (content f)) as [json | msg] eqn:Hp.
      * exists s. repeat split; auto. discriminate.
      * eexists. split; [reflexivity |]. cbn. repeat split; auto.
        -- discriminate.
        -- eauto.
  - exists s. repeat split; auto. discriminate.
Qed.

Lemma PlainInit_initialise_total_witness :
  exists s',
    PlainInit.initialise sample_parse (machine_with_local "<html>")
      = (Normal VNull, s') /\
    exists line, stderr s' = [line].
Proof.
  destruct (PlainInit_initialise_total sample_parse
              (machine_with_local "<html>"))
    as (s' & He & _ & _ & _ & _ & _ & Hw).
  exists s'. split; [exact He | exact (Hw eq_refl)].
Defined.

(** [src/unnamed/part_000]: initialisation never throws, changes nothing
    and prints nothing -- a broken local file is passed over in silence;
    [localRegistry] is the registry the local file holds when the module
    runs on Node with [fs], and [null] anywhere else. *)
Theorem GuardedInit_initialise_silent (parse : string -> parse_result)
        (s : machine) :
  GuardedInit.initialise parse s
    = (Normal (if is_node s && fs_usable s then registry_on_disk parse s
               else VNull), s).
Proof.
  unfold GuardedInit.initialise, io_try, io_bind, GuardedInit.require_fs.
  destruct (is_node s); [| reflexivity].
  destruct (fs_usable s); [| reflexivity].
  rewrite load_local_eval. unfold registry_on_disk. cbn [andb].
  destruct (local_file s) as [f |]; [| reflexivity].
  destruct (read_error f); [reflexivity |].
  now destruct (parse (content f)).
Qed.

Lemma sync_from_root_eval (s : machine) :
  exists s',
    UnguardedInit.sync_from_root s = (Normal tt, s') /\
    root_file s' = root_file s /\ exit_code s' = exit_code s /\
    match root_file s with
    | Some r =>
        match read_error r, write_error s with
        | None, None =>
            local_file s' =
              Some match local_file s with
                   | Some f => File (content r) (mode f) (read_error f)
                   | None => File (content r) (created_mode s) None
                   end /\
            stderr s' = stderr s
        | _, _ =>
            local_file s' = local_file s /\
            exists line, stderr s' = (stderr s ++ [line])%list
        end
    | None => s' = s
    end.
Proof.
  destruct s as [rf lf lp we ce cm ne isn fu so se ec].
  unfold UnguardedInit.sync_from_root, io_bind, io_try, existsSync,
    readFileSync, writeFileSync, file_at, not_production, console_log,
    console_warn_line, set_local_file, io_ret.
  destruct rf as [[c m [msg |]] |]; cbn.
  - eexists. split; [reflexivity |]. cbn. repeat split; eauto.
  - destruct we as [msg |]; cbn.
    + eexists. split; [reflexivity |]. cbn. repeat split; eauto.
    + destruct (match ne with
                | Some e => negb (String.eqb e "production")
                | None => true
                end);
        (eexists; split; [reflexivity |]; cbn; repeat split; auto).
  - eexists. split; [reflexivity | auto].
Qed.

(** [src/index.js]: initialisation never throws, whatever the state of the
    files; it touches nothing but the local file and the consoles; and
    [localRegistry] becomes the registry that the local file holds once
    initialisation is over. *)
Theorem UnguardedInit_initialise_total (parse : string -> parse_result)
        (s : machine) :
  exists s',
    UnguardedInit.initialise parse s
      = (Normal (registry_on_disk parse s'), s') /\
    root_file s' = root_file s /\ exit_code s' = exit_code s.
Proof.
  destruct (sync_from_root_eval s) as (s1 & Hs & Hroot & Hexit & _).
  unfold UnguardedInit.initialise, io_try, io_bind.
  rewrite Hs, load_local_eval. rewrite <- Hroot, <- Hexit.
  clear Hs Hroot Hexit s.
  destruct s1 as [rf lf lp we ce cm ne isn fu so se ec].
  unfold registry_on_disk, console_warn_line, io_ret. cbn.
  destruct lf as [[c m [msg |]] |]; cbn.
  - exists (Machine rf (Some (File c m (Some msg))) lp we ce cm ne isn fu so
              (se ++ ["[LLM-List SDK] Failed to load local registry: " ++ msg])
              ec).
    cbn. auto.
  - destruct (parse c) as [json | msg] eqn:Hp.
    + exists (Machine rf (Some (File c m None)) lp we ce cm ne isn fu so se ec).
      cbn. rewrite Hp. auto.
    + exists (Machine rf (Some (File c m None)) lp we ce cm ne isn fu so
                (se ++ ["[LLM-List SDK] Failed to load local registry: " ++ msg])
                ec).
      cbn. rewrite Hp. auto.
  - exists (Machine rf None lp we ce cm ne isn fu so se ec). cbn. auto.
Qed.

(** [src/index.js]: a root file that can be read always wins.  When the
    write goes through, the local file holds the text of the root file
    after initialisation, and [localRegistry] is that text parsed -- [null]
    when the root text is not JSON, whatever the local file held before:
    nothing checks the root file before it is copied. *)
Theorem root_file_overrides_local (parse : string -> parse_result)
        (s : machine) (r : file) :
  root_file s = Some r ->
  read_error r = None ->
  write_error s = None ->
  match local_file s with Some f => read_error f = None | None => True end ->
  exists s' f',
    UnguardedInit.initialise parse s
      = (Normal match parse (content r) with
                | Parsed json => json
                | ParseFailure _ => VNull
                end, s') /\
    local_file s' = Some f' /\ content f' = content r.
Proof.
  destruct s as [rf lf lp we ce cm ne isn fu so se ec].
  cbn [root_file write_error local_file]. intros -> Hr -> Hl.
  destruct r as [c m re]. cbn [read_error content] in *. subst re.
  unfold UnguardedInit.initialise, UnguardedInit.sync_from_root, load_local,
    io_try, io_bind, existsSync, readFileSync, writeFileSync, file_at,
    not_production, console_log, console_warn_line, set_local_file, io_ret,
    json_parse, io_throw.
  cbn.
  destruct (match ne with
            | Some e => negb (String.eqb e "production")
            | None => true
            end); cbn;
    destruct lf as [[c0 m0 re0] |]; cbn in *; subst;
    destruct (parse c) as [json | msg]; cbn;
    eexists; eexists; (split; [reflexivity | split; reflexivity]).
Qed.

Lemma root_file_overrides_local_witness :
  exists s' f',
    UnguardedInit.initialise sample_parse
      (Machine (Some (File "<html>" 33188 None)) (Some (File "{}" 33188 None))
               "/app/llm_registry.json" None None 33188 None true true
               [] [] None)
      = (Normal VNull, s') /\
    local_file s' = Some f' /\ content f' = "<html>".
Proof.
  exact (root_file_overrides_local sample_parse
           (Machine (Some (File "<html>" 33188 None)) (Some (File "{}" 33188 None))
                    "/app/llm_registry.json" None None 33188 None true true
                    [] [] None)
           (File "<html>" 33188 None) eq_refl eq_refl eq_refl eq_refl).
Defined.

(** Without a root file the three editions load alike: [src/index.js]
    initialises exactly as the edition without root sync does -- same value,
    same warnings, same files -- and on Node with [fs] the edition of
    [src/unnamed/part_000] computes the same [localRegistry]. *)
Theorem editions_initialise_alike (parse : string -> parse_result)
        (s : machine) :
  root_file s = None ->
  UnguardedInit.initialise parse s = PlainInit.initialise parse s /\
  (is_node s = true -> fs_usable s = true ->
   fst (GuardedInit.initialise parse s) = fst (PlainInit.initialise parse s)).
Proof.
  intros Hroot. split.
  - unfold UnguardedInit.initialise, PlainInit.initialise,
      UnguardedInit.sync_from_root, io_try, io_bind, existsSync, file_at.
    now rewrite Hroot.
  - intros Hn Hf.
    unfold GuardedInit.initialise, PlainInit.initialise,
      GuardedInit.require_fs, io_try, io_bind.
    rewrite Hn, Hf, load_local_eval.
    destruct (local_file s) as [f |]; [| reflexivity].
    destruct (read_error f); [reflexivity |].
    now destruct (parse (content f)).
Qed.

Lemma editions_initialise_alike_witness :
  UnguardedInit.initialise sample_parse (machine_with_local "{}")
    = PlainInit.initialise sample_parse (machine_with_local "{}") /\
  fst (GuardedInit.initialise sample_parse (machine_with_local "{}"))
    = fst (PlainInit.initialise sample_parse (machine_with_local "{}")).
Proof.
  destruct (editions_initialise_alike sample_parse (machine_with_local "{}")
              eq_refl) as [Hu Hg].
  split; [exact Hu | exact (Hg eq_refl eq_refl)].
Defined.

Lemma Guarded_export_getProviders (r : value) (c : list string) :
  exists h v,
    Guarded.default_export (Heap r [] c) = (Normal 0, h) /\
    loaded h 0 r /\
    Guarded.getProviders 0 h = (Normal v, h) /\
    (is_RegistryDocument r = true -> v = VArr (providers_of r)).
Proof.
  assert (He : Guarded.default_export (Heap r [] c)
               = (Normal 0, Heap r [r] (if truthy r then c
                                        else (c ++ [no_registry_warning])%list))).
  { unfold Guarded.default_export.
    destruct (constructor_eval VUndefined (Heap r [] c)) as [Hu Hg].
    cbv zeta in Hu. rewrite Hg, Hu. reflexivity. }
  remember (Heap r [r] (if truthy r then c
                        else (c ++ [no_registry_warning])%list)) as h eqn:Eh.
  assert (Hl : loaded h 0 r) by (subst h; reflexivity).
  clear Eh.
  destruct (truthy r) eqn:Hr.
  - destruct (get_prop_total r "providers" (truthy_not_nullish r Hr))
      as [x Hx].
    exists h, (if truthy x then x else VArr []).
    split; [exact He |]. split; [exact Hl |]. split.
    + unfold Guarded.getProviders, bind.
      rewrite (this_registry_loaded _ _ _ Hl), Hr. unfold prop, lift.
      rewrite Hx. destruct (truthy x); [| reflexivity].
      now rewrite (this_registry_loaded _ _ _ Hl), Hx.
    + intros Hwf.
      destruct (is_RegistryDocument_inv r Hwf)
        as (props & ps & -> & Hps & _ & ->).
      cbn [get_prop] in Hx. rewrite Hps in Hx. inversion Hx. reflexivity.
  - exists h, (VArr []). split; [exact He |]. split; [exact Hl |]. split.
    + exact (Guarded_getProviders_documentless h 0 r Hl Hr).
    + intros Hwf. rewrite (RegistryDocument_truthy r Hwf) in Hr.
      discriminate Hr.
Qed.

(** [src/unnamed/part_000], from [require] to the first query: whatever
    the machine holds -- no file, an unreadable file, text that is not JSON,
    JSON of any shape, no Node at all -- loading the module completes and
    [getProviders()] on the exported handle returns; and when the local file
    holds a registry document, on Node with [fs], it returns that document's
    providers. *)
Theorem Guarded_module_always_answers (parse : string -> parse_result)
        (s : machine) :
  exists h v,
    load_module (GuardedInit.initialise parse) Guarded.default_export s
      = (Normal 0, h) /\
    Guarded.getProviders 0 h = (Normal v, h) /\
    (is_node s = true -> fs_usable s = true ->
     is_RegistryDocument (registry_on_disk parse s) = true ->
     v = VArr (providers_of (registry_on_disk parse s))).
Proof.
  unfold load_module.
  assert (Hi : GuardedInit.initialise parse s
               = (Normal (if is_node s && fs_usable s
                          then registry_on_disk parse s else VNull), s)).
  { unfold GuardedInit.initialise, io_try, io_bind, GuardedInit.require_fs.
    destruct (is_node s); [| reflexivity].
    destruct (fs_usable s); [| reflexivity].
    rewrite load_local_eval. unfold registry_on_disk. cbn [andb].
    destruct (local_file s) as [f |]; [| reflexivity].
    destruct (read_error f); [reflexivity |].
    now destruct (parse (content f)). }
  rewrite Hi.
  destruct (Guarded_export_getProviders
              (if is_node s && fs_usable s then registry_on_disk parse s
               else VNull) (stderr s)) as (h & v & He & _ & Hq & Hwf).
  exists h, v. split; [exact He |]. split; [exact Hq |].
  intros Hn Hf Hdoc. rewrite Hn, Hf in Hwf. cbn [andb] in Hwf. auto.
Qed.

Lemma Guarded_module_always_answers_witness :
  exists h v,
    load_module (GuardedInit.initialise registry_parse) Guarded.default_export
      (machine_with_local (empty_registry_part1 ++ empty_registry_part2))
      = (Normal 0, h) /\
    Guarded.getProviders 0 h = (Normal v, h) /\ v = VArr [].
Proof.
  destruct (Guarded_module_always_answers registry_parse
              (machine_with_local (empty_registry_part1 ++ empty_registry_part2)))
    as (h & v & Hl & Hq & Hv).
  exists h, v. split; [exact Hl |]. split; [exact Hq |].
  exact (Hv eq_refl eq_refl eq_refl).
Defined.

(* ================================================================== *)
(** ** The sync script *)

Ltac run_sync :=
  unfold SyncScript.main, SyncScript.main_try, SyncScript.install,
    SyncScript.fetchRemoteFile,
    SyncScript.getFileMode, SyncScript.log, SyncScript.isValidJSON,
    io_bind, io_ret, io_throw, console_log, writeFileSync, chmodSync,
    readFileSync, existsSync, file_at, set_local_file, process_exit,
    sync_ending, sync_succeeds, rewritten;
  unfold served, stalls; unfold SyncScript.isValidJSON.

(** Giving a file the permission bits it has changes nothing. *)
Lemma mode_restored (m : Z) :
  Z.lor (Z.land m (Z.lnot permission_mask)) (Z.land m permission_mask) = m.
Proof.
  rewrite <- Z.land_lor_distr_r, Z.lor_comm, Z.lor_lnot_diag.
  apply Z.land_m1_r.
Qed.

(** The script changes the local file only when the remote end serves a
    complete 200 response whose text is well-formed JSON and the write
    itself is accepted.  In every other case the file is what it was; the
    process then ends with exit code 1 -- unless a 200 response was cut
    before its end: the download never settles, nothing of [main] runs any
    more, and the process ends on its own without [process.exit]. *)
Theorem sync_keeps_file_on_failure (P : platform) (elapsed : string)
        (s : machine) :
  served P = None \/ write_error s <> None ->
  local_file (SyncScript.main P elapsed s) = local_file s /\
  root_file (SyncScript.main P elapsed s) = root_file s /\
  exit_code (SyncScript.main P elapsed s)
    = (if stalls P then exit_code s else Some 1%Z).
Proof.
  destruct s as [rf lf lp we ce cm ne isn fu so se ec].
  run_sync. cbn [write_error]. intros H.
  destruct (http_get P SyncScript.REMOTE_URL)
    as [msg | st chunks | st chunks msg | msg]; cbn.
  - auto.
  - destruct (Z.eqb st 200); cbn; [| auto].
    destruct (JSON_parse P (stream_text P chunks)) as [json | msg];
      cbn; [| auto].
    destruct H as [H | H]; [cbn in H; discriminate H |].
    destruct we as [msg |]; [| now elim H].
    destruct lf; cbn; auto.
  - destruct (Z.eqb st 200); cbn; auto.
  - auto.
Qed.

Lemma sync_keeps_file_on_failure_witness :
  (local_file (SyncScript.main (node_https (server 404 "404: Not" " Found"))
                 "0.12" (machine_with_local "{}"))
     = Some (File "{}" 33188 None) /\
   exit_code (SyncScript.main (node_https (server 404 "404: Not" " Found"))
                "0.12" (machine_with_local "{}"))
     = Some 1%Z) /\
  (local_file (SyncScript.main
                 (node_https (fun _ => HttpAborted 200 ["{"] "aborted"))
                 "0.12" (machine_with_local "{}"))
     = Some (File "{}" 33188 None) /\
   exit_code (SyncScript.main
                (node_https (fun _ => HttpAborted 200 ["{"] "aborted"))
                "0.12" (machine_with_local "{}"))
     = None).
Proof.
  split.
  - destruct (sync_keeps_file_on_failure
                (node_https (server 404 "404: Not" " Found")) "0.12"
                (machine_with_local "{}") (or_introl eq_refl))
      as (Hl & _ & He).
    split; [exact Hl | exact He].
  - destruct (sync_keeps_file_on_failure
                (node_https (fun _ => HttpAborted 200 ["{"] "aborted")) "0.12"
                (machine_with_local "{}") (or_introl eq_refl))
      as (Hl & _ & He).
    split; [exact Hl | exact He].
Defined.

(** Once the remote end has served valid JSON and the write has gone
    through, the local file holds exactly the served text -- the body
    decoded as one stream -- under the mode it had before (that of a new
    file when there was none); this also when a later step fails and the
    run ends with exit code 1: nothing is rolled back. *)
Theorem sync_writes_served_text (P : platform) (elapsed : string)
        (s : machine) (body : string) :
  served P = Some body ->
  write_error s = None ->
  local_file (SyncScript.main P elapsed s) = Some (rewritten body s) /\
  root_file (SyncScript.main P elapsed s) = root_file s.
Proof.
  destruct s as [rf lf lp we ce cm ne isn fu so se ec].
  run_sync. cbn [write_error]. intros H ->.
  destruct (http_get P SyncScript.REMOTE_URL)
    as [msg | st chunks | st chunks amsg | msg]; try discriminate H.
  destruct (Z.eqb st 200); [| discriminate H]. cbn.
  destruct (JSON_parse P (stream_text P chunks)) as [json | msg];
    [| discriminate H].
  cbn in H. inversion H; subst body. clear H. cbn.
  destruct lf as [[c m [rmsg |]] |]; cbn.
  - destruct (Z.eqb m 0); cbn; [auto |]. destruct ce; cbn; [auto |].
    rewrite mode_restored. auto.
  - destruct (Z.eqb m 0); cbn.
    + rewrite String.eqb_refl. cbn. auto.
    + destruct ce; cbn; [auto |]. rewrite String.eqb_refl. cbn.
      rewrite mode_restored. auto.
  - rewrite String.eqb_refl. cbn. auto.
Qed.

Lemma sync_writes_served_text_witness :
  local_file (SyncScript.main (node_https (server 200 "{" "}")) "0.12"
                (machine_with_local "[]"))
    = Some (File "{}" 33188 None).
Proof.
  exact (proj1 (sync_writes_served_text (node_https (server 200 "{" "}"))
                  "0.12" (machine_with_local "[]") "{}" eq_refl eq_refl)).
Defined.

Ltac error_line :=
  split; [reflexivity |]; rewrite <- !app_assoc; cbn [app];
  eexists; (split; [reflexivity |]); cbn [last];
  exact (prefix_append "[ERROR] 同步失败: " _).

Ltac closing_line :=
  split; [reflexivity |]; rewrite <- !app_assoc; cbn [app];
  eexists; (split; [reflexivity |]); reflexivity.

(** How a run ends; there are three ways.  When every step goes through the
    process is not exited and the last line printed is the closing line of
    the [finally] block.  When a step fails the exit code is 1 and the last
    line printed is the error line: [process.exit] in the [catch] block ends
    the process before the [finally] block, so the closing line never
    follows an error.  When a 200 response is cut before its end the
    download never settles: neither block runs, [process.exit] is not
    called, and the last line printed is the one that announces the
    download. *)
Theorem sync_exit_and_last_line (P : platform) (elapsed : string)
        (s : machine) :
  exit_code (SyncScript.main P elapsed s)
    = match sync_ending P s with
      | EndsFailed => Some 1%Z
      | EndsCompleted | EndsStalled => exit_code s
      end /\
  exists lines,
    stdout (SyncScript.main P elapsed s) = (stdout s ++ lines)%list /\
    match sync_ending P s with
    | EndsCompleted =>
        last lines "" = "[INFO] === 同步结束，耗时 " ++ elapsed ++ "s ==="
    | EndsFailed => String.prefix "[ERROR] 同步失败: " (last lines "") = true
    | EndsStalled =>
        last lines "" = "[INFO] 开始下载文件: " ++ SyncScript.REMOTE_URL
    end.
Proof.
  destruct s as [rf lf lp we ce cm ne isn fu so se ec].
  run_sync. cbn [write_error local_file chmod_error exit_code stdout].
  destruct (http_get P SyncScript.REMOTE_URL)
    as [msg | st chunks | st chunks amsg | msg]; cbn.
  1: error_line.
  3: error_line.
  2:{ destruct (Z.eqb st 200); cbn; [| error_line].
      split; [reflexivity |]. rewrite <- !app_assoc. cbn [app].
      eexists. split; [reflexivity |]. reflexivity. }
  destruct (Z.eqb st 200); cbn; [| error_line].
  destruct (JSON_parse P (stream_text P chunks)) as [json | msg]; cbn;
    [| error_line].
  destruct we as [wmsg |]; cbn.
  { destruct lf; cbn; error_line. }
  destruct lf as [[c m [rmsg |]] |]; cbn.
  - rewrite andb_false_r.
    destruct (Z.eqb m 0); cbn; [| destruct ce; cbn]; error_line.
  - rewrite andb_true_r. destruct (Z.eqb m 0); cbn.
    + rewrite String.eqb_refl. cbn. closing_line.
    + destruct ce; cbn; [error_line |].
      rewrite String.eqb_refl. cbn. closing_line.
  - rewrite String.eqb_refl. cbn. closing_line.
Qed.

Lemma sync_success_state (P : platform) (elapsed : string) (s : machine)
      (body : string) :
  served P = Some body ->
  sync_succeeds P s = true ->
  exists json m,
    JSON_parse P body = Parsed json /\
    local_file (SyncScript.main P elapsed s) = Some (File body m None) /\
    root_file (SyncScript.main P elapsed s) = root_file s.
Proof.
  destruct s as [rf lf lp we ce cm ne isn fu so se ec].
  run_sync. cbn [write_error local_file chmod_error].
  destruct (http_get P SyncScript.REMOTE_URL)
    as [msg | st chunks | st chunks amsg | msg]; try discriminate.
  destruct (Z.eqb st 200); [| discriminate]. cbn.
  destruct (JSON_parse P (stream_text P chunks)) as [json | msg] eqn:Hp;
    [| discriminate].
  cbn. intros H. inversion H; subst body. clear H. rewrite Hp.
  destruct we as [wmsg |]; [discriminate |].
  destruct lf as [[c m [rmsg |]] |]; cbn.
  - rewrite andb_false_r. discriminate.
  - rewrite andb_true_r. intros Hok. exists json, m. split; [reflexivity |].
    destruct (Z.eqb m 0); cbn.
    + rewrite String.eqb_refl. cbn. auto.
    + destruct ce; [discriminate Hok |]. cbn.
      rewrite String.eqb_refl. cbn. rewrite mode_restored. auto.
  - intros _. exists json, cm. split; [reflexivity |].
    rewrite String.eqb_refl. cbn. auto.
Qed.

Lemma UnguardedInit_reads_local (parse : string -> parse_result)
      (s : machine) (text : string) (m : Z) (json : value) :
  root_file s = None ->
  local_file s = Some (File text m None) ->
  parse text = Parsed json ->
  UnguardedInit.initialise parse s = (Normal json, s).
Proof.
  intros Hroot Hlocal Hp.
  unfold UnguardedInit.initialise, UnguardedInit.sync_from_root, io_try,
    io_bind, existsSync, file_at.
  rewrite Hroot. unfold io_ret. rewrite load_local_eval, Hlocal.
  cbn [read_error content]. now rewrite Hp.
Qed.

(** The script and the SDK together: after a run that goes through, with
    no root file in the way, loading [src/index.js] gives a handle that holds
    exactly the JSON value that was served; and when that value is a
    registry document, [getProviders()] on the exported handle returns its
    providers. *)
Theorem sync_then_load (P : platform) (elapsed : string) (s : machine)
        (body : string) :
  served P = Some body ->
  sync_succeeds P s = true ->
  root_file s = None ->
  exists json h,
    JSON_parse P body = Parsed json /\
    load_module (UnguardedInit.initialise (JSON_parse P))
                Unguarded.default_export (SyncScript.main P elapsed s)
      = (Normal 0, h) /\
    loaded h 0 json /\
    (is_RegistryDocument json = true ->
     Unguarded.getProviders 0 h = (Normal (VArr (providers_of json)), h)).
Proof.
  intros Hserved Hok Hroot.
  destruct (sync_success_state P elapsed s body Hserved Hok)
    as (json & m & Hp & Hlocal & Hr).
  rewrite Hroot in Hr.
  exists json. unfold load_module.
  rewrite (UnguardedInit_reads_local _ _ body m json Hr Hlocal Hp).
  unfold Unguarded.default_export.
  destruct (constructor_eval VUndefined
              (Heap json [] (stderr (SyncScript.main P elapsed s))))
    as [Hc _].
  cbv zeta in Hc.
  cbn [truthy localRegistry instances console List.length app] in Hc.
  rewrite Hc.
  eexists. split; [exact Hp |]. split; [reflexivity |].
  split; [reflexivity |].
  intros Hwf.
  apply (getProviders_loaded _ 0 json); [reflexivity | exact Hwf].
Qed.

Lemma sync_then_load_witness :
  exists json h,
    load_module (UnguardedInit.initialise registry_parse)
                Unguarded.default_export
                (SyncScript.main
                   (Platform registry_parse sample_decode sample_stream_decode
                      sample_decode
                      (server 200 empty_registry_part1 empty_registry_part2)
                      false true)
                   "0.12" fresh_machine)
      = (Normal 0, h) /\
    loaded h 0 json /\
    Unguarded.getProviders 0 h = (Normal (VArr []), h).
Proof.
  destruct (sync_then_load
              (Platform registry_parse sample_decode sample_stream_decode
                      sample_decode
                 (server 200 empty_registry_part1 empty_registry_part2)
                 false true)
              "0.12" fresh_machine
              (empty_registry_part1 ++ empty_registry_part2)
              eq_refl eq_refl eq_refl)
    as (json & h & Hp & Hl & Hh & Hq).
  exists json, h. split; [exact Hl |]. split; [exact Hh |].
  assert (Hj : json = empty_registry).
  { vm_compute in Hp. now inversion Hp. }
  subst json. exact (Hq eq_refl).
Defined.
